(** * Power_Profiler: the iDRAC power monitor of [idle_total.py]

    A shallow embedding of [AsyncPowerMonitor] (the background poller with its
    bounded deque of samples), of the export loop of [main] and of
    [RedfishClient], followed by the properties stated about them.

    Conventions.
    - Python floats ([time.time()], watts, intervals) are rationals [Q]:
      the properties below are about the arithmetic structure of the code,
      not about rounding.
    - A [deque(maxlen=n)] is the list of its elements, oldest first, together
      with [n].
    - A dict used as a CSV row is an association list in insertion order.
    - The Redfish client, the clocks and the operator's Ctrl+C are the
      environment: each loop is a function of the list of what the
      environment delivered at each iteration, and returns the final state
      together with the trace of what the loop did. *)

From Stdlib Require Import String ZArith QArith Qround Lia Lqa Bool PeanoNat List.
Import ListNotations.
Open Scope string_scope.
Open Scope list_scope.
Open Scope nat_scope.

(* ================================================================== *)
(** ** Python values the code relies on *)

(** The result of a call that may raise: [Ok v] is a normal return,
    [Raise e] an exception whose [str(e)] is [e]. *)
Inductive result (A : Type) : Type :=
| Ok (v : A)
| Raise (e : string).
Arguments Ok {A} v.
Arguments Raise {A} e.

Definition is_ok {A} (r : result A) : bool :=
  match r with Ok _ => true | Raise _ => false end.

(** Truthiness of a list: [if xs:]. *)
Definition truthy {A} (xs : list A) : bool :=
  match xs with [] => false | _ :: _ => true end.

(** [xs[-1]] on a non-empty list, [None] standing for the empty case the
    callers guard against. *)
Fixpoint last_item {A} (xs : list A) : option A :=
  match xs with
  | [] => None
  | [x] => Some x
  | _ :: rest => last_item rest
  end.

(** [xs[-count:]] for [count > 0]: the slice starts at
    [max (len xs - count) 0]. *)
Definition slice_last {A} (count : nat) (xs : list A) : list A :=
  skipn (length xs - count) xs.

(** [collections.deque.append] on a deque built with [maxlen]: the item is
    pushed on the right and, when the length then exceeds [maxlen], one item
    is popped from the left. *)
Definition deque_append {A} (maxlen : nat) (d : list A) (x : A) : list A :=
  let d' := d ++ [x] in
  if maxlen <? length d' then tl d' else d'.

(** Appending a sequence of items, one [append] each, left to right. *)
Definition deque_extend {A} (maxlen : nat) (d : list A) (xs : list A) : list A :=
  fold_left (deque_append maxlen) xs d.

(* ================================================================== *)
(** ** Data model *)

(** One entry of [RedfishClient.get_power_supplies]. *)
Record PowerSupply : Type := {
  id : string;
  input_watts : option Q;
  output_watts : option Q;
  state : option string
}.

(** The dict built at each successful poll. *)
Record Sample : Type := {
  timestamp : string;
  time : Q;
  power : Q;
  power_supplies : list PowerSupply
}.

(** [AsyncPowerMonitor].  [thread] is the handle of the background thread
    (its index in the process's thread table, see [Process] below); the lock
    is not a field of the model: every use is [with self.lock:] around a
    block that does no call-out, so it is free again before and after each
    method. *)
Record AsyncPowerMonitor : Type := {
  system_id : string;
  samples : list Sample;
  max_samples : nat;
  running : bool;
  thread : option nat;
  last_error : option string;
  poll_interval : Q
}.

(** [AsyncPowerMonitor.__init__]. *)
Definition __init__ (sys : string) (maxlen : nat) : AsyncPowerMonitor :=
  {| system_id := sys;
     samples := [];
     max_samples := maxlen;
     running := false;
     thread := None;
     last_error := None;
     poll_interval := 5 # 100 |}.

Definition set_samples (m : AsyncPowerMonitor) (l : list Sample) :=
  {| system_id := system_id m; samples := l; max_samples := max_samples m;
     running := running m; thread := thread m; last_error := last_error m;
     poll_interval := poll_interval m |}.

Definition set_last_error (m : AsyncPowerMonitor) (e : string) :=
  {| system_id := system_id m; samples := samples m;
     max_samples := max_samples m; running := running m; thread := thread m;
     last_error := Some e; poll_interval := poll_interval m |}.

Definition set_running (m : AsyncPowerMonitor) (b : bool) :=
  {| system_id := system_id m; samples := samples m;
     max_samples := max_samples m; running := b; thread := thread m;
     last_error := last_error m; poll_interval := poll_interval m |}.

Definition set_thread (m : AsyncPowerMonitor) (t : option nat) :=
  {| system_id := system_id m; samples := samples m;
     max_samples := max_samples m; running := running m; thread := t;
     last_error := last_error m; poll_interval := poll_interval m |}.

(* ================================================================== *)
(** ** The poller: [AsyncPowerMonitor._monitor_loop] *)

(** What the environment delivers during one iteration of the loop: the
    outcome of [get_power_consumption], the outcome [get_power_supplies]
    has if the iteration calls it, and the two clock readings. *)
Record PollEnv : Type := {
  env_power : result Q;
  env_supplies : result (list PowerSupply);
  env_isoformat : string;
  env_time : Q
}.

(** What the loop does, in order. *)
Inductive Event : Type :=
| CallPower
| CallSupplies
| Append (s : Sample)
| Sleep (seconds : Q).

(** The body of the [try:] block of one iteration: the events up to the
    point reached, and either the monitor after the block or the exception
    that left it. *)
Definition try_body (env : PollEnv) (m : AsyncPowerMonitor)
  : list Event * result AsyncPowerMonitor :=
  match env_power env with
  | Raise e => ([CallPower], Raise e)
  | Ok pw =>
      let fetched :=
        if length (samples m) mod 20 =? 0
        then ([CallSupplies], env_supplies env)
        else ([], Ok []) in
      match fetched with
      | (ev, Raise e) => (CallPower :: ev, Raise e)
      | (ev, Ok supplies) =>
          let sample := {| timestamp := env_isoformat env;
                           time := env_time env;
                           power := pw;
                           power_supplies := supplies |} in
          (CallPower :: ev ++ [Append sample; Sleep (poll_interval m)],
           Ok (set_samples m (deque_append (max_samples m) (samples m) sample)))
      end
  end.

(** One iteration: the [try:] block and its [except Exception] handler. *)
Definition monitor_iteration (env : PollEnv) (m : AsyncPowerMonitor)
  : AsyncPowerMonitor * list Event :=
  match try_body env m with
  | (ev, Ok m') => (m', ev)
  | (ev, Raise e) => (set_last_error m e, ev ++ [Sleep 1%Q])
  end.

(** [while self.running:] over the iterations the environment supplies. *)
Fixpoint _monitor_loop (envs : list PollEnv) (m : AsyncPowerMonitor)
  : AsyncPowerMonitor * list Event :=
  match envs with
  | [] => (m, [])
  | env :: rest =>
      if running m then
        let '(m1, ev1) := monitor_iteration env m in
        let '(m2, ev2) := _monitor_loop rest m1 in
        (m2, ev1 ++ ev2)
      else (m, [])
  end.

(** Reading a trace. *)
Definition appended (tr : list Event) : list Sample :=
  flat_map (fun e => match e with Append s => [s] | _ => [] end) tr.

Definition supplies_calls (tr : list Event) : nat :=
  length (filter (fun e => match e with CallSupplies => true | _ => false end) tr).

Definition calls_supplies (tr : list Event) : bool :=
  existsb (fun e => match e with CallSupplies => true | _ => false end) tr.

(** The number of iterations whose power fetch succeeded. *)
Definition power_successes (envs : list PollEnv) : nat :=
  length (filter (fun env => is_ok (env_power env)) envs).

(** The power fetches alternate between success and failure. *)
Fixpoint alternates (envs : list PollEnv) : bool :=
  match envs with
  | a :: ((b :: _) as rest) =>
      negb (Bool.eqb (is_ok (env_power a)) (is_ok (env_power b)))
      && alternates rest
  | _ => true
  end.

(* ================================================================== *)
(** ** The read methods of [AsyncPowerMonitor] *)

(** Methods are state transformers: a result and the object afterwards. *)
Definition Method (S A : Type) : Type := S -> A * S.

Definition ret {S A} (a : A) : Method S A := fun s => (a, s).

Definition bind {S A B} (c : Method S A) (k : A -> Method S B) : Method S B :=
  fun s => let '(a, s') := c s in k a s'.

Definition gets {S A} (f : S -> A) : Method S A := fun s => (f s, s).

Definition modify {S} (f : S -> S) : Method S unit := fun s => (tt, f s).

Declare Scope method_scope.
Delimit Scope method_scope with method.
Notation "x <- c ;; k" := (bind c (fun x => k))
  (at level 61, c at next level, right associativity) : method_scope.
Notation "c ;; k" := (bind c (fun _ => k))
  (at level 61, right associativity) : method_scope.

(** [with self.lock: body]: the lock is taken, [body] runs, the lock is
    released.  No other thread runs in between, which is all the lock is
    for. *)
Definition with_lock {A} (body : Method AsyncPowerMonitor A)
  : Method AsyncPowerMonitor A := body.

(** [get_samples(since_time=None)]. *)
Definition get_samples (since_time : option Q)
  : Method AsyncPowerMonitor (list Sample) :=
  with_lock
    (match since_time with
     | Some t => gets (fun m => filter (fun s => Qle_bool t (time s)) (samples m))
     | None => gets (fun m => samples m)
     end).

(** [get_latest_sample()]. *)
Definition get_latest_sample : Method AsyncPowerMonitor (option Sample) :=
  with_lock
    (gets (fun m => if truthy (samples m) then last_item (samples m) else None)).

(** [get_sampling_rate()].  The two subscripts [recent_samples[-1]] and
    [recent_samples[0]] raise [IndexError] on an empty list; the model keeps
    that case, and [get_sampling_rate_returns] shows it is never taken. *)
Definition get_sampling_rate : Method AsyncPowerMonitor (result Q) :=
  with_lock
    (gets (fun m =>
       if length (samples m) <? 2 then Ok 0%Q
       else
         let count := Nat.min 10 (length (samples m)) in
         let recent_samples := slice_last count (samples m) in
         if count <? 2 then Ok 0%Q
         else
           match last_item recent_samples, hd_error recent_samples with
           | Some newest, Some oldest =>
               let time_diff := (time newest - time oldest)%Q in
               if Qle_bool time_diff 0 then Ok 0%Q
               else Ok (inject_Z (Z.of_nat (count - 1)) / time_diff)%Q
           | _, _ => Raise "IndexError"
           end)).

(** Calling a method [n] times in a row: the results, in order, and the
    object after the last call. *)
Fixpoint call_times {S A} (n : nat) (c : Method S A) (s : S) : list A * S :=
  match n with
  | O => ([], s)
  | S k => let '(a, s1) := c s in
           let '(rest, s2) := call_times k c s1 in
           (a :: rest, s2)
  end.

(* ================================================================== *)
(** ** Starting and stopping the background thread *)

(** A [threading.Thread] object. *)
Record Thread : Type := {
  target : string;
  daemon : bool;
  started : bool
}.

(** The monitor together with every thread object created so far; a thread
    handle is an index into [threads]. *)
Record Process : Type := {
  monitor : AsyncPowerMonitor;
  threads : list Thread
}.

Definition on_monitor (f : AsyncPowerMonitor -> AsyncPowerMonitor)
  : Method Process unit :=
  modify (fun p => {| monitor := f (monitor p); threads := threads p |}).

(** [threading.Thread(target=...)]: a new thread object, not yet started. *)
Definition new_thread (tgt : string) : Method Process nat :=
  fun p =>
    (length (threads p),
     {| monitor := monitor p;
        threads := threads p ++ [{| target := tgt; daemon := false;
                                    started := false |}] |}).

Fixpoint update_nth {A} (n : nat) (f : A -> A) (l : list A) : list A :=
  match l, n with
  | [], _ => []
  | x :: r, O => f x :: r
  | x :: r, S k => x :: update_nth k f r
  end.

Definition on_thread (t : nat) (f : Thread -> Thread) : Method Process unit :=
  modify (fun p => {| monitor := monitor p;
                      threads := update_nth t f (threads p) |}).

Definition set_daemon (b : bool) (th : Thread) : Thread :=
  {| target := target th; daemon := b; started := started th |}.

Definition thread_start (th : Thread) : Thread :=
  {| target := target th; daemon := daemon th; started := true |}.

(** [AsyncPowerMonitor.start()]. *)
Definition start : Method Process bool :=
  (r <- gets (fun p => running (monitor p)) ;;
   if r then ret false
   else
     on_monitor (fun m => set_running m true) ;;
     t <- new_thread "_monitor_loop" ;;
     on_monitor (fun m => set_thread m (Some t)) ;;
     on_thread t (set_daemon true) ;;
     on_thread t thread_start ;;
     ret true)%method.

(** [AsyncPowerMonitor.stop()]: [join(timeout=2.0)] waits and changes
    nothing in the objects. *)
Definition stop : Method Process unit :=
  (on_monitor (fun m => set_running m false) ;;
   t <- gets (fun p => thread (monitor p)) ;;
   match t with
   | Some _ => on_monitor (fun m => set_thread m None)
   | None => ret tt
   end)%method.

(* ================================================================== *)
(** ** CSV rows and [csv.DictWriter] *)

(** A value written to a CSV cell. *)
Inductive Cell : Type :=
| Str (s : string)
| Num (q : Q)
| NoneCell.

Definition cell_of (v : option Q) : Cell :=
  match v with Some q => Num q | None => NoneCell end.

(** A row dict: keys in insertion order, no key twice. *)
Definition Row : Type := list (string * Cell).

(** [row[key] = value]. *)
Fixpoint dict_set (row : Row) (key : string) (value : Cell) : Row :=
  match row with
  | [] => [(key, value)]
  | (k, v) :: rest =>
      if String.eqb k key then (k, value) :: rest
      else (k, v) :: dict_set rest key value
  end.

(** [row.get(key)]. *)
Fixpoint dict_get (row : Row) (key : string) : option Cell :=
  match row with
  | [] => None
  | (k, v) :: rest => if String.eqb k key then Some v else dict_get rest key
  end.

Definition keys (row : Row) : list string := map fst row.

Definition mem (k : string) (l : list string) : bool :=
  existsb (String.eqb k) l.

(** The two column names of a power supply: [f"ps_{ps_id}_output_watts"]
    and [f"ps_{ps_id}_input_watts"]. *)
Definition output_column (ps_id : string) : string :=
  ("ps_" ++ ps_id ++ "_output_watts")%string.

Definition input_column (ps_id : string) : string :=
  ("ps_" ++ ps_id ++ "_input_watts")%string.

(** [rowdict.get(key, self.restval)], with [restval] the empty string. *)
Definition cell_for (rowdict : Row) (key : string) : Cell :=
  match dict_get rowdict key with
  | Some c => c
  | None => Str ""
  end.

(** [csv.DictWriter(csvfile, fieldnames=fieldnames)], with the defaults
    [restval=''] and [extrasaction='raise'] the code leaves in place. *)
Record DictWriter : Type := { fieldnames : list string }.

(** The file as the list of records written to it, the header first. *)
Definition CsvFile : Type := list (list Cell).

(** [DictWriter._dict_to_list]: a row holding a key outside [fieldnames]
    raises [ValueError]; otherwise the cells are taken in the order of
    [fieldnames], an absent key giving [restval]. *)
Definition _dict_to_list (w : DictWriter) (rowdict : Row) : result (list Cell) :=
  let wrong_fields :=
    filter (fun k => negb (mem k (fieldnames w))) (keys rowdict) in
  if truthy wrong_fields
  then Raise "ValueError: dict contains fields not in fieldnames"
  else Ok (map (cell_for rowdict) (fieldnames w)).

(** [DictWriter.writerows]: the rows are converted and written one after the
    other, so the rows before a raising one are in the file already. *)
Fixpoint writerows (w : DictWriter) (rowdicts : list Row) (f : CsvFile)
  : CsvFile * option string :=
  match rowdicts with
  | [] => (f, None)
  | r :: rest =>
      match _dict_to_list w r with
      | Ok cells => writerows w rest (f ++ [cells])
      | Raise e => (f, Some e)
      end
  end.

(** [DictWriter.writeheader]. *)
Definition writeheader (w : DictWriter) (f : CsvFile) : CsvFile :=
  f ++ [map Str (fieldnames w)].

(* ================================================================== *)
(** ** The exporter: the monitoring part of [main] *)

(** [round(x, 6)]: to the nearest multiple of 10^-6, ties to even. *)
Definition round_half_even (q : Q) : Z :=
  let lo := Qfloor q in
  let frac := (q - inject_Z lo)%Q in
  match (frac ?= 1 # 2)%Q with
  | Lt => lo
  | Gt => (lo + 1)%Z
  | Eq => if Z.even lo then lo else (lo + 1)%Z
  end.

Definition round6 (q : Q) : Q :=
  (inject_Z (round_half_even (q * inject_Z 1000000)) / inject_Z 1000000)%Q.

(** The command-line arguments the loop reads. *)
Record Args : Type := {
  interval : Q;
  duration : Z;
  buffer_size : Z
}.

(** Lines 300-304: the power-supply ids for the header, from the sample
    [get_latest_sample] returns at that moment. *)
Definition power_supply_ids (latest_sample : option Sample) : list string :=
  match latest_sample with
  | Some s => if truthy (power_supplies s)
              then map id (power_supplies s)
              else []
  | None => []
  end.

(** Line 308: the columns every row has. *)
Definition base_fieldnames : list string :=
  ["timestamp"; "elapsed_seconds"; "total_power_watts"].

(** Lines 308-313: the header. *)
Definition header_fieldnames (ids : list string) : list string :=
  fold_left (fun names ps_id => names ++ [output_column ps_id]
                                      ++ [input_column ps_id])
            ids base_fieldnames.

(** Lines 347-358: the row of one export tick. *)
Definition make_row (elapsed_seconds : Q) (latest_sample : Sample) : Row :=
  let row := [("timestamp", Str (timestamp latest_sample));
              ("elapsed_seconds", Num (round6 elapsed_seconds));
              ("total_power_watts", Num (power latest_sample))] in
  if truthy (power_supplies latest_sample) then
    fold_left (fun row ps =>
                 dict_set (dict_set row (output_column (id ps))
                                        (cell_of (output_watts ps)))
                          (input_column (id ps)) (cell_of (input_watts ps)))
              (power_supplies latest_sample) row
  else row.

(** The local variables of [main] the loop works on.  The status line
    printed after a flush (lines 373-384) writes to the terminal only and is
    left out, with its [last_status_time]. *)
Record Exporter : Type := {
  writer : DictWriter;
  csvfile : CsvFile;
  buffer : list Row;
  start_time : Q;
  next_sample_time : Q;
  samples_collected : nat
}.

(** Lines 300-328: header written, loop variables initialised.  [m] is the
    monitor as it is when line 301 reads it, [now] the clock of line 321. *)
Definition open_export (m : AsyncPowerMonitor) (now : Q) : Exporter :=
  let w := {| fieldnames :=
                header_fieldnames (power_supply_ids (fst (get_latest_sample m))) |} in
  {| writer := w;
     csvfile := writeheader w [];
     buffer := [];
     start_time := now;
     next_sample_time := now;
     samples_collected := 0 |}.

(** What the environment delivers to one iteration of [while True]: the
    clock of line 332 and the monitor as line 343 finds it. *)
Record Tick : Type := {
  current_time : Q;
  mon : AsyncPowerMonitor
}.

(** What the exporter does, in order. *)
Inductive ExportEvent : Type :=
| RowAppended (r : Row)
| Flush (batch : list Row)
| FinalFlush (batch : list Row).

Inductive Outcome : Type :=
| Continue (st : Exporter)
| Break (st : Exporter)
| Crash (e : string) (st : Exporter).

(** Line 335. *)
Definition duration_reached (args : Args) (t : Tick) (st : Exporter) : bool :=
  (0 <? duration args)%Z
  && Qle_bool (inject_Z (duration args)) (current_time t - start_time st).

(** Lines 340-365: the sample block. *)
Definition sample_block (args : Args) (t : Tick) (st : Exporter)
  : Exporter * list ExportEvent :=
  if Qle_bool (next_sample_time st) (current_time t) then
    let elapsed_seconds := (current_time t - start_time st)%Q in
    let '(buf, n, ev) :=
      match fst (get_latest_sample (mon t)) with
      | Some latest_sample =>
          let row := make_row elapsed_seconds latest_sample in
          (buffer st ++ [row], S (samples_collected st), [RowAppended row])
      | None => (buffer st, samples_collected st, [])
      end in
    ({| writer := writer st; csvfile := csvfile st; buffer := buf;
        start_time := start_time st;
        next_sample_time := (current_time t + interval args)%Q;
        samples_collected := n |}, ev)
  else (st, []).

Definition set_file_buffer (st : Exporter) (f : CsvFile) (b : list Row) :=
  {| writer := writer st; csvfile := f; buffer := b;
     start_time := start_time st; next_sample_time := next_sample_time st;
     samples_collected := samples_collected st |}.

(** Lines 367-371: the flush block. *)
Definition flush_block (args : Args) (st : Exporter)
  : Outcome * list ExportEvent :=
  if (buffer_size args <=? Z.of_nat (length (buffer st)))%Z then
    match writerows (writer st) (buffer st) (csvfile st) with
    | (f, None) => (Continue (set_file_buffer st f []), [Flush (buffer st)])
    | (f, Some e) => (Crash e (set_file_buffer st f (buffer st)),
                      [Flush (buffer st)])
    end
  else (Continue st, []).

(** One full iteration of [while True]; the sleep of line 387 changes no
    variable. *)
Definition iteration (args : Args) (t : Tick) (st : Exporter)
  : Outcome * list ExportEvent :=
  if duration_reached args t st then (Break st, [])
  else
    let '(st1, ev1) := sample_block args t st in
    let '(o, ev2) := flush_block args st1 in
    (o, ev1 ++ ev2).

(** Where a [KeyboardInterrupt] can land inside an iteration, as far as the
    buffer and the file can tell: before the sample block (this covers the
    sleep of line 387 and the top of the loop), between the sample block and
    the flush test, or inside [writer.writerows] of line 369 once [k] rows
    are written ([k] the length of the buffer: between lines 369 and 371). *)
Inductive InterruptPoint : Type :=
| BeforeSample
| AfterSample
| InWriterows (k : nat).

(** An iteration cut short by [KeyboardInterrupt] at [p]: control goes to
    the [except KeyboardInterrupt] clause, so the loop is left.  When the
    duration test of line 335 fires first, the loop is left by [break]. *)
Definition interrupted (args : Args) (p : InterruptPoint) (t : Tick)
                       (st : Exporter) : Outcome * list ExportEvent :=
  match p with
  | BeforeSample => (Break st, [])
  | AfterSample =>
      if duration_reached args t st then (Break st, [])
      else let '(st1, ev1) := sample_block args t st in (Break st1, ev1)
  | InWriterows k =>
      if duration_reached args t st then (Break st, [])
      else
        let '(st1, ev1) := sample_block args t st in
        if (buffer_size args <=? Z.of_nat (length (buffer st1)))%Z then
          let batch := firstn k (buffer st1) in
          match writerows (writer st1) batch (csvfile st1) with
          | (f, None) =>
              (Break (set_file_buffer st1 f (buffer st1)), ev1 ++ [Flush batch])
          | (f, Some e) =>
              (Crash e (set_file_buffer st1 f (buffer st1)),
               ev1 ++ [Flush batch])
          end
        else (Break st1, ev1)
  end.

Inductive LoopInput : Type :=
| Runs (t : Tick)
| CtrlC (p : InterruptPoint) (t : Tick).

(** Lines 330-390: [while True] inside [try: ... except KeyboardInterrupt].
    [Continue] says the loop is still running when the inputs end, [Break]
    that it was left by [break] or by the interrupt, [Crash] that an
    exception other than [KeyboardInterrupt] left it. *)
Fixpoint export_loop (args : Args) (inputs : list LoopInput) (st : Exporter)
  : Outcome * list ExportEvent :=
  match inputs with
  | [] => (Continue st, [])
  | Runs t :: rest =>
      match iteration args t st with
      | (Continue st1, ev1) =>
          let '(o, ev2) := export_loop args rest st1 in (o, ev1 ++ ev2)
      | other => other
      end
  | CtrlC p t :: _ => interrupted args p t st
  end.

(** Lines 392-394: the remaining rows are written after the loop. *)
Definition final_flush (st : Exporter) : Outcome * list ExportEvent :=
  if truthy (buffer st) then
    match writerows (writer st) (buffer st) (csvfile st) with
    | (f, None) => (Break (set_file_buffer st f (buffer st)),
                    [FinalFlush (buffer st)])
    | (f, Some e) => (Crash e (set_file_buffer st f (buffer st)),
                      [FinalFlush (buffer st)])
    end
  else (Break st, []).

(** The loop followed by the final flush.  [Break] now says the export ran
    to its end; an exception raised in the loop propagates past the final
    flush to the handler of line 406. *)
Definition export_run (args : Args) (inputs : list LoopInput) (st : Exporter)
  : Outcome * list ExportEvent :=
  match export_loop args inputs st with
  | (Break st1, ev1) =>
      let '(o, ev2) := final_flush st1 in (o, ev1 ++ ev2)
  | other => other
  end.

(** Reading an export trace. *)
Definition rows_appended (tr : list ExportEvent) : list Row :=
  flat_map (fun e => match e with RowAppended r => [r] | _ => [] end) tr.

Definition rows_flushed (tr : list ExportEvent) : list Row :=
  flat_map (fun e => match e with
                     | Flush b => b
                     | FinalFlush b => b
                     | RowAppended _ => []
                     end) tr.

Definition final_flushes (tr : list ExportEvent) : nat :=
  length (filter (fun e => match e with FinalFlush _ => true | _ => false end) tr).

(** The record [writerows] writes for a row it accepts. *)
Definition record_of (w : DictWriter) (r : Row) : list Cell :=
  map (cell_for r) (fieldnames w).

(** The exporter's variables when an outcome is reached. *)
Definition state_of (o : Outcome) : Exporter :=
  match o with Continue st | Break st | Crash _ st => st end.

Definition crashed (o : Outcome) : bool :=
  match o with Crash _ _ => true | _ => false end.

(** Some interrupt of the run lands inside [writer.writerows]. *)
Definition in_writerows (inputs : list LoopInput) : bool :=
  existsb (fun i => match i with
                    | CtrlC (InWriterows _) _ => true
                    | _ => false
                    end) inputs.

(** The sizes of the batches the flush block hands to [writerows]. *)
Definition flush_sizes (tr : list ExportEvent) : list nat :=
  flat_map (fun e => match e with Flush b => [length b] | _ => [] end) tr.

(** The row holds no key outside the header. *)
Definition fits (w : DictWriter) (r : Row) : bool :=
  forallb (fun k => mem k (fieldnames w)) (keys r).

(** The ids of a sample's power supplies. *)
Definition supply_ids (s : Sample) : list string := map id (power_supplies s).

(** The column set as the specification words it: the ids of the first
    sample, in buffer order, that carries power-supply data. *)
Definition spec_power_supply_ids (l : list Sample) : list string :=
  match find (fun s => truthy (power_supplies s)) l with
  | Some s => supply_ids s
  | None => []
  end.

(* ================================================================== *)
(** ** Concrete scenarios

    The mock source of the specification's scenario: 150 W and two power
    supplies; the monitor as [main] builds and starts it; the two ways a
    poll can fail. *)

Definition PS1 : PowerSupply :=
  {| id := "PS1"; input_watts := Some 85%Q; output_watts := Some 80%Q;
     state := Some "Enabled" |}.

Definition PS2 : PowerSupply :=
  {| id := "PS2"; input_watts := Some 75%Q; output_watts := Some 70%Q;
     state := Some "Enabled" |}.

(** [AsyncPowerMonitor(client, args.system_id)]: [max_samples] keeps its
    default, 1000. *)
Definition fresh_monitor : AsyncPowerMonitor :=
  __init__ "/Systems/System.Embedded.1" 1000.

(** The process before and after [monitor.start()], and the monitor once
    started. *)
Definition fresh_process : Process :=
  {| monitor := fresh_monitor; threads := [] |}.

Definition started_process : Process := snd (start fresh_process).

Definition running_monitor : AsyncPowerMonitor := monitor started_process.

(** The [n]th poll of a healthy source, 50 ms after the previous one. *)
Definition good_poll (n : nat) : PollEnv :=
  {| env_power := Ok 150%Q;
     env_supplies := Ok [PS1; PS2];
     env_isoformat := "2024-01-01T00:00:00";
     env_time := (Z.of_nat n # 20)%Q |}.

Definition power_fails : PollEnv :=
  {| env_power := Raise "HTTPSConnectionPool: Read timed out";
     env_supplies := Ok [PS1; PS2];
     env_isoformat := "2024-01-01T00:00:01";
     env_time := 1%Q |}.

Definition supplies_fail : PollEnv :=
  {| env_power := Ok 150%Q;
     env_supplies := Raise "HTTPSConnectionPool: Read timed out";
     env_isoformat := "2024-01-01T00:00:00";
     env_time := 0%Q |}.

(** A sample of a 20th poll, and one of the polls in between. *)
Definition sample_with_supplies : Sample :=
  {| timestamp := "2024-01-01T00:00:00"; time := 0%Q; power := 150%Q;
     power_supplies := [PS1; PS2] |}.

Definition sample_without_supplies : Sample :=
  {| timestamp := "2024-01-01T00:00:01"; time := 1%Q; power := 151%Q;
     power_supplies := [] |}.

Definition monitor_with (l : list Sample) : AsyncPowerMonitor :=
  set_samples running_monitor l.

(** The export loop's arguments: the defaults of the command line, and a
    run flushing every second row. *)
Definition default_args : Args :=
  {| interval := 1 # 10; duration := 0; buffer_size := 1000 |}.

Definition small_args : Args :=
  {| interval := 1 # 4; duration := 0; buffer_size := 2 |}.

Definition timed_args : Args :=
  {| interval := 1 # 4; duration := 1; buffer_size := 1000 |}.

(** The iteration of the export loop at clock [now], the monitor holding
    the samples [l]. *)
Definition tick_at (now : Q) (l : list Sample) : Tick :=
  {| current_time := now; mon := monitor_with l |}.

(** The buffer when [main] writes the header: the first poll brought
    power-supply data, the latest one did not; and the buffer one 20th poll
    later. *)
Definition warm_up : list Sample :=
  [sample_with_supplies; sample_without_supplies].

Definition later_on : list Sample :=
  warm_up ++ [sample_with_supplies].

(** Three export ticks followed by Ctrl+C during the sleep. *)
Definition interrupted_run : list LoopInput :=
  [Runs (tick_at 0 [sample_with_supplies]);
   Runs (tick_at (1 # 4) warm_up);
   Runs (tick_at (1 # 2) later_on);
   CtrlC BeforeSample (tick_at (3 # 4) later_on)].

(** Two export ticks, then the duration of [timed_args] is reached. *)
Definition timed_run : list LoopInput :=
  [Runs (tick_at 0 warm_up);
   Runs (tick_at (1 # 4) later_on);
   Runs (tick_at 1 later_on)].

(* ================================================================== *)
(** ** More of the traces and of [main] *)




(** Python's [max(a, b)] and [min(a, b)] on two numbers: the first argument
    unless the second is strictly larger (smaller). *)
Definition py_max (a b : Q) : Q := if Qle_bool b a then a else b.

Definition py_min (a b : Q) : Q := if Qle_bool a b then a else b.

(** Line 387: the argument of the export loop's [time.sleep], [now] being
    the clock read there. *)
Definition idle_wait (next_sample_time now : Q) : Q :=
  py_min (1 # 100) (py_max 0 (next_sample_time - now)).

(** The tick an iteration works on, complete or interrupted. *)
Definition tick_of (i : LoopInput) : Tick :=
  match i with Runs t | CtrlC _ t => t end.

(** A [KeyboardInterrupt] that lands between lines 361 and 362, after
    [buffer.append(row)] and before [samples_collected += 1]: the row is in
    the buffer, the counter and [next_sample_time] are as they were.  An
    iteration that does not reach line 361 has no such point: it is left
    with nothing appended. *)
Definition interrupted_before_count (args : Args) (t : Tick) (st : Exporter)
  : Outcome * list ExportEvent :=
  if duration_reached args t st then (Break st, [])
  else if Qle_bool (next_sample_time st) (current_time t) then
    let elapsed_seconds := (current_time t - start_time st)%Q in
    match fst (get_latest_sample (mon t)) with
    | Some latest_sample =>
        let row := make_row elapsed_seconds latest_sample in
        (Break {| writer := writer st; csvfile := csvfile st;
                  buffer := buffer st ++ [row];
                  start_time := start_time st;
                  next_sample_time := next_sample_time st;
                  samples_collected := samples_collected st |},
         [RowAppended row])
    | None => (Break st, [])
    end
  else (Break st, []).

(** A run whose loop is still going after [inputs] and is then interrupted
    there, at tick [t]: the iterations of [inputs], the interrupted one, the
    final flush.  A loop that [inputs] already ended runs as [export_run]. *)
Definition export_run_cut (args : Args) (inputs : list LoopInput) (t : Tick)
                          (st : Exporter) : Outcome * list ExportEvent :=
  match export_loop args inputs st with
  | (Continue st1, ev1) =>
      let '(o2, ev2) := interrupted_before_count args t st1 in
      let '(o3, ev3) := final_flush (state_of o2) in
      (o3, ev1 ++ ev2 ++ ev3)
  | _ => export_run args inputs st
  end.

(** Lines 294-296 and 300-328: [main] gives up when [get_samples()] is
    empty after the two seconds of warm-up; otherwise it reads the latest
    sample and opens the file.  [at_294] and [at_301] are the monitor as the
    two reads find it, [now] the clock of line 321. *)
Definition main_startup (at_294 at_301 : AsyncPowerMonitor) (now : Q)
  : result Exporter :=
  if truthy (fst (get_samples None at_294))
  then Ok (open_export at_301 now)
  else Raise "No power samples collected. Check iDRAC connection.".

(** Lines 374-384, as far as the variables go: [current] is the clock of
    line 374; the rate of line 376 is computed, and [last_status_time]
    moved, when five seconds have passed since the last status line.  A
    float division by zero raises [ZeroDivisionError]. *)
Definition status_block (start_time last_status_time current : Q)
                        (samples_collected : nat) : result (option Q) * Q :=
  if Qle_bool 5 (current - last_status_time) then
    if Qeq_bool (current - start_time) 0
    then (Raise "ZeroDivisionError: float division by zero", last_status_time)
    else (Ok (Some (inject_Z (Z.of_nat samples_collected)
                    / (current - start_time))%Q), current)
  else (Ok None, last_status_time).

(** The status blocks of a run, one per clock reading: the value of
    [last_status_time] at the end, or the exception that ended the run. *)
Fixpoint status_blocks (start_time last_status_time : Q) (clocks : list Q)
                       (samples_collected : nat) : result Q :=
  match clocks with
  | [] => Ok last_status_time
  | current :: rest =>
      match status_block start_time last_status_time current
                         samples_collected with
      | (Raise e, _) => Raise e
      | (Ok _, last') => status_blocks start_time last' rest samples_collected
      end
  end.

(* ================================================================== *)
(** ** The Redfish client: [RedfishClient]

    The values [response.json()] returns are Python objects built from
    JSON text; the client reads them with [in], [.get], subscripts and
    [for] loops, each of which raises on an object of the wrong kind.  An
    exception raised by the interpreter or by a library is represented by
    the name of its class; the two exceptions the client raises itself
    carry their message. *)

Module Redfish.

Local Set Warnings "-register-all".

Inductive json : Type :=
| JNull
| JBool (b : bool)
| JNum (q : Q)
| JStr (s : string)
| JList (items : list json)
| JDict (items : list (string * json)).

(** Sequencing of calls that may raise. *)
Definition and_then {A B} (r : result A) (k : A -> result B) : result B :=
  match r with
  | Ok a => k a
  | Raise e => Raise e
  end.

Declare Scope result_scope.
Delimit Scope result_scope with result.
Notation "x <- r ;; k" := (and_then r (fun x => k))
  (at level 61, r at next level, right associativity) : result_scope.

(** Truthiness: [None], [False], zero and the empty string, list and dict
    are false. *)
Definition json_truthy (v : json) : bool :=
  match v with
  | JNull => false
  | JBool b => b
  | JNum q => negb (Qeq_bool q 0)
  | JStr s => negb (String.eqb s "")
  | JList l => truthy l
  | JDict d => truthy d
  end.

(** The value of a key in a dict, the keys being distinct. *)
Fixpoint lookup {A} (d : list (string * A)) (key : string) : option A :=
  match d with
  | [] => None
  | (k, v) :: rest => if String.eqb k key then Some v else lookup rest key
  end.

Definition has_key {A} (d : list (string * A)) (key : string) : bool :=
  match lookup d key with Some _ => true | None => false end.

(** [d[key] = value] on a dict. *)
Fixpoint store {A} (d : list (string * A)) (key : string) (value : A)
  : list (string * A) :=
  match d with
  | [] => [(key, value)]
  | (k, v) :: rest =>
      if String.eqb k key then (k, value) :: rest
      else (k, v) :: store rest key value
  end.

(** [needle in hay] on two strings. *)
Fixpoint contains (needle hay : string) : bool :=
  if String.prefix needle hay then true
  else match hay with
       | EmptyString => false
       | String _ rest => contains needle rest
       end.

(** [s.replace(old, '')]: every occurrence of [old], found from the left and
    not overlapping the previous one, is dropped.  [skip] counts the
    characters of the current occurrence still to drop. *)
Fixpoint drop_occurrences (old : string) (skip : nat) (s : string) : string :=
  match s with
  | EmptyString => EmptyString
  | String c rest =>
      match skip with
      | S k => drop_occurrences old k rest
      | O => if String.prefix old s
             then drop_occurrences old (String.length old - 1) rest
             else String c (drop_occurrences old 0 rest)
      end
  end.

Definition str_remove (old s : string) : string :=
  if String.eqb old "" then s else drop_occurrences old 0 s.

(** [key in v] for a string [key]. *)
Definition py_in (key : string) (v : json) : result bool :=
  match v with
  | JDict d => Ok (has_key d key)
  | JList l => Ok (existsb (fun x => match x with
                                     | JStr s => String.eqb s key
                                     | _ => false
                                     end) l)
  | JStr s => Ok (contains key s)
  | _ => Raise "TypeError"
  end.

(** [v.get(key, default)]. *)
Definition py_get (v : json) (key : string) (default : json) : result json :=
  match v with
  | JDict d => Ok (match lookup d key with Some x => x | None => default end)
  | _ => Raise "AttributeError"
  end.

(** [v[key]] for a string [key]. *)
Definition py_getitem (v : json) (key : string) : result json :=
  match v with
  | JDict d => match lookup d key with
               | Some x => Ok x
               | None => Raise "KeyError"
               end
  | _ => Raise "TypeError"
  end.

(** The items [for x in v] goes through: the elements of a list, the keys
    of a dict, the characters of a string. *)
Definition py_iter (v : json) : result (list json) :=
  match v with
  | JList l => Ok l
  | JDict d => Ok (map (fun kv => JStr (fst kv)) d)
  | JStr s => Ok (map (fun c => JStr (String c EmptyString))
                      (list_ascii_of_string s))
  | _ => Raise "TypeError"
  end.

(** What [session.request] hands back: the status, the raw body, and what
    [response.json()] returns or raises on that body. *)
Record Response : Type := {
  status_code : Z;
  content : string;
  json_body : result json
}.

(** The remote end: what the [n]th request of the client gets when it goes
    to [url]; [Raise] is a [RequestException] (no connection, timeout). *)
Definition Server : Type := nat -> string -> result Response.

(** The client.  [requests] is the list of the URLs requested so far, oldest
    first; it is not a field of the Python object. *)
Record RedfishClient : Type := {
  base_url : string;
  _power_uri_cache : list (string * string);
  requests : list string
}.

(** [RedfishClient.__init__]. *)
Definition __init__ (host : string) : RedfishClient :=
  {| base_url := ("https://" ++ host ++ "/redfish/v1")%string;
     _power_uri_cache := [];
     requests := [] |}.

(** [_request('GET', path)]: [raise_for_status] raises on a status from 400
    to 599; an empty body gives [None]; the [except] clause prints and
    raises again. *)
Definition _request (srv : Server) (path : string) (c : RedfishClient)
  : result json * RedfishClient :=
  let url := (base_url c ++ path)%string in
  let c' := {| base_url := base_url c;
               _power_uri_cache := _power_uri_cache c;
               requests := requests c ++ [url] |} in
  match srv (length (requests c)) url with
  | Raise e => (Raise e, c')
  | Ok response =>
      if ((400 <=? status_code response) && (status_code response <? 600))%Z
      then (Raise "HTTPError", c')
      else if String.eqb (content response) ""
           then (Ok JNull, c')
           else (json_body response, c')
  end.

(** Lines 80-86: from the system resource to the power URI. *)
Definition power_uri_of (base system_id : string) (system : json)
  : result string :=
  (power <- py_get system "Power" (JDict []) ;;
   power_uri <- py_get power "@odata.id" JNull ;;
   if negb (json_truthy power_uri)
   then Raise ("Power URI not found for system " ++ system_id)%string
   else match power_uri with
        | JStr uri => Ok (str_remove base uri)
        | _ => Raise "AttributeError"
        end)%result.

(** [get_power_uri(system_id)]. *)
Definition get_power_uri (srv : Server) (system_id : string) (c : RedfishClient)
  : result string * RedfishClient :=
  match lookup (_power_uri_cache c) system_id with
  | Some uri => (Ok uri, c)
  | None =>
      let '(r, c1) := _request srv system_id c in
      match and_then r (power_uri_of (base_url c) system_id) with
      | Raise e => (Raise e, c1)
      | Ok power_uri =>
          (Ok power_uri,
           {| base_url := base_url c1;
              _power_uri_cache := store (_power_uri_cache c1)
                                        system_id power_uri;
              requests := requests c1 |})
      end
  end.

(** Lines 99-101: the first loop of [get_power_consumption]. *)
Fixpoint first_consumed (controls : list json) : result (option json) :=
  match controls with
  | [] => Ok None
  | control :: rest =>
      (found <- py_in "PowerConsumedWatts" control ;;
       if found
       then (v <- py_getitem control "PowerConsumedWatts" ;; Ok (Some v))
       else first_consumed rest)%result
  end.

(** Lines 104-107: the second loop. *)
Fixpoint first_average (controls : list json) : result (option json) :=
  match controls with
  | [] => Ok None
  | control :: rest =>
      (metrics <- py_get control "PowerMetrics" (JDict []) ;;
       found <- py_in "AverageConsumedWatts" metrics ;;
       if found
       then (v <- py_getitem metrics "AverageConsumedWatts" ;; Ok (Some v))
       else first_average rest)%result
  end.

(** Lines 97-109: from the power resource to the watts. *)
Definition power_consumption_of (power_data : json) : result json :=
  (present <- py_in "PowerControl" power_data ;;
   consumed <- (if present
                then (controls <- py_getitem power_data "PowerControl" ;;
                      items <- py_iter controls ;;
                      first_consumed items)
                else Ok None) ;;
   match consumed with
   | Some v => Ok v
   | None =>
       controls <- py_get power_data "PowerControl" (JList []) ;;
       items <- py_iter controls ;;
       average <- first_average items ;;
       match average with
       | Some v => Ok v
       | None => Raise "Power consumption data not found in Redfish response"
       end
   end)%result.

(** The dict built for one power supply, by its four keys. *)
Record SupplyInfo : Type := {
  id : json;
  input_watts : json;
  output_watts : json;
  state : json
}.

(** Lines 118-123. *)
Definition supply_info (supply : json) : result SupplyInfo :=
  (member <- py_get supply "MemberId" JNull ;;
   ident <- (if json_truthy member then Ok member
             else py_get supply "Id" JNull) ;;
   input <- py_get supply "PowerInputWatts" JNull ;;
   output <- py_get supply "PowerOutputWatts" JNull ;;
   status <- py_get supply "Status" (JDict []) ;;
   st <- py_get status "State" JNull ;;
   Ok {| id := ident; input_watts := input; output_watts := output;
         state := st |})%result.

(** The [for] loop of lines 116-124: the first supply that raises ends
    it. *)
Fixpoint supply_infos (supplies : list json) : result (list SupplyInfo) :=
  match supplies with
  | [] => Ok []
  | supply :: rest =>
      (info <- supply_info supply ;;
       infos <- supply_infos rest ;;
       Ok (info :: infos))%result
  end.

(** Lines 116-126: from the power resource to the supplies. *)
Definition power_supplies_of (power_data : json) : result (list SupplyInfo) :=
  (supplies <- py_get power_data "PowerSupplies" (JList []) ;;
   items <- py_iter supplies ;;
   supply_infos items)%result.

(** The two fetches: the power URI, then the power resource. *)
Definition fetch_power_data (srv : Server) (system_id : string)
                            (c : RedfishClient)
  : result json * RedfishClient :=
  let '(r, c1) := get_power_uri srv system_id c in
  match r with
  | Raise e => (Raise e, c1)
  | Ok power_uri => _request srv power_uri c1
  end.

(** [get_power_consumption(system_id)]. *)
Definition get_power_consumption (srv : Server) (system_id : string)
                                 (c : RedfishClient)
  : result json * RedfishClient :=
  let '(r, c1) := fetch_power_data srv system_id c in
  (and_then r power_consumption_of, c1).

(** [get_power_supplies(system_id)]. *)
Definition get_power_supplies (srv : Server) (system_id : string)
                              (c : RedfishClient)
  : result (list SupplyInfo) * RedfishClient :=
  let '(r, c1) := fetch_power_data srv system_id c in
  (and_then r power_supplies_of, c1).

(** A control that is a dict without the key. *)
Definition dict_without (key : string) (control : json) : bool :=
  match control with
  | JDict d => negb (has_key d key)
  | _ => false
  end.

(** A control that is a dict whose [PowerMetrics] is absent, or a dict
    without [AverageConsumedWatts]. *)
Definition without_average (control : json) : bool :=
  match control with
  | JDict d =>
      match lookup d "PowerMetrics" with
      | None => true
      | Some metrics => dict_without "AverageConsumedWatts" metrics
      end
  | _ => false
  end.

(** A supply that is a dict whose [Status] is absent or a dict. *)
Definition well_formed_supply (supply : json) : bool :=
  match supply with
  | JDict d =>
      match lookup d "Status" with
      | None | Some (JDict _) => true
      | Some _ => false
      end
  | _ => false
  end.

End Redfish.

(** [d.get(key)] on the items of a dict: the value, [None] when the key is
    absent. *)
Definition field_or_null (d : list (string * Redfish.json)) (key : string)
  : Redfish.json :=
  match Redfish.lookup d key with
  | Some v => v
  | None => Redfish.JNull
  end.

(** The dict [get_power_supplies] builds from a supply that is a dict with
    the items [sd]: [a or b] is [a] when [a] is true, [b] otherwise. *)
Definition supply_info_of_dict (sd : list (string * Redfish.json))
  : Redfish.SupplyInfo :=
  {| Redfish.id :=
       if Redfish.json_truthy (field_or_null sd "MemberId")
       then field_or_null sd "MemberId"
       else field_or_null sd "Id";
     Redfish.input_watts := field_or_null sd "PowerInputWatts";
     Redfish.output_watts := field_or_null sd "PowerOutputWatts";
     Redfish.state :=
       match Redfish.lookup sd "Status" with
       | Some (Redfish.JDict st) => field_or_null st "State"
       | _ => Redfish.JNull
       end |}.

(** A client of the host [idrac] and the power resource of the
    specification's scenario. *)
Definition idrac : Redfish.RedfishClient := Redfish.__init__ "idrac".

Definition power_resource : Redfish.json :=
  Redfish.JDict
    [("PowerControl",
      Redfish.JList
        [Redfish.JDict
           [("PowerMetrics",
             Redfish.JDict [("AverageConsumedWatts", Redfish.JNum 140)]);
            ("PowerConsumedWatts", Redfish.JNum 150)]]);
     ("PowerSupplies",
      Redfish.JList
        [Redfish.JDict [("MemberId", Redfish.JStr "PS1");
                        ("PowerInputWatts", Redfish.JNum 85);
                        ("PowerOutputWatts", Redfish.JNum 80);
                        ("Status",
                         Redfish.JDict [("State", Redfish.JStr "Enabled")])];
         Redfish.JDict [("MemberId", Redfish.JStr "");
                        ("Id", Redfish.JStr "PS2");
                        ("PowerInputWatts", Redfish.JNum 75);
                        ("PowerOutputWatts", Redfish.JNum 70)]])].

Definition system_resource : Redfish.json :=
  Redfish.JDict
    [("Id", Redfish.JStr "System.Embedded.1");
     ("Power",
      Redfish.JDict
        [("@odata.id",
          Redfish.JStr "/redfish/v1/Chassis/System.Embedded.1/Power")])].

(** A server that answers every request with status 200 and the body
    [body]. *)
Definition serves (body : Redfish.json) : Redfish.Server :=
  fun _ _ => Ok {| Redfish.status_code := 200;
                   Redfish.content := "{...}";
                   Redfish.json_body := Ok body |}.

(** A server that answers every request with status 200 and no body. *)
Definition serves_nothing : Redfish.Server :=
  fun _ _ => Ok {| Redfish.status_code := 200;
                   Redfish.content := "";
                   Redfish.json_body := Raise "JSONDecodeError" |}.

(* ================================================================== *)
(** * Properties *)

(** ** The ring buffer *)

Section RingBuffer.
Context {A : Type}.
Implicit Types (d xs : list A) (C : nat).

Lemma tl_skipn d : tl d = skipn 1 d.
Proof. destruct d; reflexivity. Qed.

Lemma slice_last_all C d : length d <= C -> slice_last C d = d.
Proof.
  intros H. unfold slice_last.
  replace (length d - C) with 0 by lia. reflexivity.
Qed.

Lemma slice_last_length C d : length (slice_last C d) = Nat.min C (length d).
Proof. unfold slice_last. rewrite length_skipn. lia. Qed.

Lemma deque_append_slice C d x :
  length d <= C -> deque_append C d x = slice_last C (d ++ [x]).
Proof.
  intros H. unfold deque_append, slice_last.
  rewrite length_app. cbn [length].
  destruct (Nat.ltb_spec C (length d + 1)) as [Hfull | Hroom].
  - rewrite tl_skipn. f_equal. lia.
  - replace (length d + 1 - C) with 0 by lia. reflexivity.
Qed.

Lemma deque_append_length C d x :
  length d <= C -> length (deque_append C d x) <= C.
Proof.
  intros H. rewrite deque_append_slice by exact H.
  rewrite slice_last_length. lia.
Qed.

(** Keeping the last [C] items commutes with appending more items. *)
Lemma slice_last_app C d xs :
  slice_last C (slice_last C d ++ xs) = slice_last C (d ++ xs).
Proof.
  destruct (Nat.le_gt_cases (length d) C) as [Hle | Hgt].
  - rewrite (slice_last_all C d Hle). reflexivity.
  - unfold slice_last at 1 3.
    rewrite !length_app, slice_last_length.
    replace (Nat.min C (length d)) with C by lia.
    unfold slice_last.
    replace (skipn (length d - C) d ++ xs)
      with (skipn (length d - C) (d ++ xs)).
    + rewrite skipn_skipn. f_equal. lia.
    + rewrite skipn_app.
      replace (length d - C - length d) with 0 by lia. reflexivity.
Qed.

Lemma deque_extend_slice C xs :
  forall d, length d <= C -> deque_extend C d xs = slice_last C (d ++ xs).
Proof.
  unfold deque_extend.
  induction xs as [| x xs IH]; intros d H; cbn [fold_left].
  - rewrite app_nil_r. symmetry. apply slice_last_all, H.
  - rewrite IH by (apply deque_append_length, H).
    rewrite deque_append_slice by exact H.
    rewrite slice_last_app, <- app_assoc. reflexivity.
Qed.

Lemma deque_extend_length C xs d :
  length d <= C -> length (deque_extend C d xs) <= C.
Proof.
  intros H. rewrite deque_extend_slice by exact H.
  rewrite slice_last_length. lia.
Qed.

Lemma deque_extend_app C d xs ys :
  deque_extend C d (xs ++ ys) = deque_extend C (deque_extend C d xs) ys.
Proof. unfold deque_extend. apply fold_left_app. Qed.

Lemma last_item_snoc d x : last_item (d ++ [x]) = Some x.
Proof.
  induction d as [| y d IH]; [reflexivity |].
  cbn [app last_item]. destruct (d ++ [x]) eqn:E.
  - destruct d; discriminate.
  - exact IH.
Qed.

Lemma last_item_some d : d <> [] -> exists x, last_item d = Some x.
Proof.
  intros H. destruct (exists_last H) as [d' [x ->]].
  exists x. apply last_item_snoc.
Qed.
End RingBuffer.

(** ** The poller *)

Section Poller.
Implicit Types (m : AsyncPowerMonitor) (env : PollEnv).

(** The [try:] block is left by an exception in exactly two ways. *)
Lemma monitor_iteration_power_fails env m e :
  env_power env = Raise e ->
  monitor_iteration env m = (set_last_error m e, [CallPower; Sleep 1%Q]).
Proof. intros H. unfold monitor_iteration, try_body. rewrite H. reflexivity. Qed.

Lemma monitor_iteration_supplies_fail env m pw e :
  env_power env = Ok pw ->
  length (samples m) mod 20 = 0 ->
  env_supplies env = Raise e ->
  monitor_iteration env m
  = (set_last_error m e, [CallPower; CallSupplies; Sleep 1%Q]).
Proof.
  intros Hp Hlen Hs. unfold monitor_iteration, try_body.
  rewrite Hp, Hlen, Hs. reflexivity.
Qed.

(** Otherwise it appends one sample. *)
Lemma monitor_iteration_appends env m pw :
  env_power env = Ok pw ->
  is_ok (env_supplies env) = true ->
  exists s,
    let (m', tr) := monitor_iteration env m in
    m' = set_samples m (deque_append (max_samples m) (samples m) s)
    /\ appended tr = [s]
    /\ power s = pw
    /\ calls_supplies tr = (length (samples m) mod 20 =? 0).
Proof.
  intros Hp Hs. unfold monitor_iteration, try_body. rewrite Hp.
  destruct (length (samples m) mod 20 =? 0).
  - destruct (env_supplies env) as [ps | e]; [| discriminate].
    eexists. cbn. repeat split; reflexivity.
  - eexists. cbn. repeat split; reflexivity.
Qed.

(** What an iteration leaves alone, and how it changes the buffer. *)
Lemma monitor_iteration_frame env m :
  let (m', tr) := monitor_iteration env m in
  samples m' = deque_extend (max_samples m) (samples m) (appended tr)
  /\ max_samples m' = max_samples m
  /\ running m' = running m
  /\ thread m' = thread m.
Proof.
  unfold monitor_iteration, try_body.
  destruct (env_power env) as [pw | e]; [| cbn; auto].
  destruct (length (samples m) mod 20 =? 0).
  - destruct (env_supplies env) as [ps | e]; cbn; auto.
  - cbn; auto.
Qed.

Lemma appended_app tr1 tr2 :
  appended (tr1 ++ tr2) = appended tr1 ++ appended tr2.
Proof. unfold appended. apply flat_map_app. Qed.

Lemma monitor_loop_frame envs :
  forall m,
    let (m', tr) := _monitor_loop envs m in
    samples m' = deque_extend (max_samples m) (samples m) (appended tr)
    /\ max_samples m' = max_samples m
    /\ running m' = running m
    /\ thread m' = thread m.
Proof.
  induction envs as [| env rest IH]; intros m; cbn [_monitor_loop].
  - cbn. auto.
  - destruct (running m) eqn:Hrun; [| cbn; auto].
    pose proof (monitor_iteration_frame env m) as H1.
    destruct (monitor_iteration env m) as [m1 ev1].
    specialize (IH m1).
    destruct (_monitor_loop rest m1) as [m2 ev2].
    destruct H1 as (Hs1 & Hc1 & Hr1 & Ht1).
    destruct IH as (Hs2 & Hc2 & Hr2 & Ht2).
    rewrite appended_app, deque_extend_app, <- Hs1, <- Hc1.
    repeat split; congruence.
Qed.

(** The buffer of a monitor built by [__init__] never outgrows its
    capacity. *)
Lemma monitor_loop_bounded envs m :
  length (samples m) <= max_samples m ->
  length (samples (fst (_monitor_loop envs m))) <= max_samples m.
Proof.
  intros H. pose proof (monitor_loop_frame envs m) as F.
  destruct (_monitor_loop envs m) as [m' tr]. cbn [fst].
  destruct F as (-> & _). apply deque_extend_length, H.
Qed.

(** When no power-supply fetch fails, an iteration appends a sample
    exactly when its power fetch succeeds. *)
Lemma monitor_iteration_count env m :
  is_ok (env_supplies env) = true ->
  length (appended (snd (monitor_iteration env m)))
  = if is_ok (env_power env) then 1 else 0.
Proof.
  intros Hs. destruct (env_power env) as [pw | e] eqn:Hp; cbn [is_ok].
  - destruct (monitor_iteration_appends env m pw Hp Hs) as [s H].
    destruct (monitor_iteration env m) as [m' tr]. cbn [snd].
    destruct H as (_ & -> & _). reflexivity.
  - rewrite (monitor_iteration_power_fails env m e Hp). reflexivity.
Qed.

Lemma monitor_loop_count envs :
  forall m,
    running m = true ->
    Forall (fun env => is_ok (env_supplies env) = true) envs ->
    length (appended (snd (_monitor_loop envs m))) = power_successes envs.
Proof.
  induction envs as [| env rest IH]; intros m Hrun Hall; [reflexivity |].
  inversion Hall as [| ? ? Hs Hrest]; subst.
  cbn [_monitor_loop]. rewrite Hrun.
  pose proof (monitor_iteration_count env m Hs) as H1.
  pose proof (monitor_iteration_frame env m) as F1.
  destruct (monitor_iteration env m) as [m1 ev1]. cbn [snd] in H1.
  destruct F1 as (_ & _ & Hr1 & _).
  specialize (IH m1 (eq_trans Hr1 Hrun) Hrest).
  destruct (_monitor_loop rest m1) as [m2 ev2]. cbn [snd] in *.
  rewrite appended_app, length_app, H1, IH.
  unfold power_successes. cbn [filter].
  destruct (is_ok (env_power env)); reflexivity.
Qed.

(** A full buffer whose capacity is a multiple of 20 makes every
    iteration with a successful power fetch call [get_power_supplies],
    and leaves the buffer full. *)
Lemma full_buffer_fetches_supplies env m pw :
  length (samples m) = max_samples m ->
  max_samples m mod 20 = 0 ->
  env_power env = Ok pw ->
  calls_supplies (snd (monitor_iteration env m)) = true
  /\ length (samples (fst (monitor_iteration env m))) = max_samples m.
Proof.
  intros Hfull Hmod Hp.
  pose proof (monitor_iteration_frame env m) as F.
  unfold monitor_iteration, try_body in *.
  rewrite Hp, Hfull, Hmod in *. cbn [Nat.eqb] in *.
  destruct (env_supplies env) as [ps | e]; cbn in *.
  - split; [reflexivity |].
    destruct F as (F & _). unfold deque_extend in F. cbn in F.
    rewrite deque_append_slice, slice_last_length, length_app by lia.
    cbn [length]. lia.
  - split; [reflexivity | exact Hfull].
Qed.
End Poller.

(* ------------------------------------------------------------------ *)
(** *** C1 *)

(** C1, as stated, fails: on the first poll of a started monitor (0 samples
    buffered, so the power-supply fetch is made) the power fetch returns
    150 W and [get_power_supplies] raises; no sample is appended and the
    buffer stays empty. *)
Lemma supplies_failure_drops_sample :
  env_power supplies_fail = Ok 150%Q
  /\ length (samples running_monitor) mod 20 = 0
  /\ is_ok (env_supplies supplies_fail) = false
  /\ appended (snd (monitor_iteration supplies_fail running_monitor)) = []
  /\ samples (fst (monitor_iteration supplies_fail running_monitor)) = [].
Proof. repeat split; reflexivity. Qed.

(** C1, amended: when [get_power_supplies] raises on an iteration whose
    power fetch succeeded, the exception is handled like any other of the
    [try:] block: the error is recorded in [last_error], the loop sleeps the
    1.0 s backoff, and no sample is appended, so the buffer is unchanged and
    the next successful power fetch makes the power-supply fetch again. *)
Theorem supplies_failure_backs_off (env : PollEnv) (m : AsyncPowerMonitor)
                                   (pw : Q) (e : string) :
  env_power env = Ok pw ->
  length (samples m) mod 20 = 0 ->
  env_supplies env = Raise e ->
  let (m', tr) := monitor_iteration env m in
  tr = [CallPower; CallSupplies; Sleep 1%Q]
  /\ appended tr = []
  /\ samples m' = samples m
  /\ last_error m' = Some e
  /\ running m' = running m
  /\ length (samples m') mod 20 = 0.
Proof.
  intros Hp Hlen Hs.
  rewrite (monitor_iteration_supplies_fail env m pw e Hp Hlen Hs).
  cbn. repeat split; auto.
Qed.

Lemma supplies_failure_backs_off_witness :
  let (m', tr) := monitor_iteration supplies_fail running_monitor in
  tr = [CallPower; CallSupplies; Sleep 1%Q]
  /\ appended tr = []
  /\ samples m' = samples running_monitor
  /\ last_error m' = Some "HTTPSConnectionPool: Read timed out"
  /\ running m' = running running_monitor
  /\ length (samples m') mod 20 = 0.
Proof.
  apply (supplies_failure_backs_off supplies_fail running_monitor 150%Q
           "HTTPSConnectionPool: Read timed out"); reflexivity.
Defined.

(* ------------------------------------------------------------------ *)
(** *** C3 *)

(** C3: the code at the failing input.  A healthy source is polled by the
    monitor [main] builds (capacity 1000).  The first 1000 polls fill the
    buffer and make 50 power-supply fetches, one every 20th poll; from then
    on the buffer's length stays 1000, a multiple of 20, and each of the
    next 40 polls makes a power-supply fetch: 90 fetches after 1040 polls,
    where one every 20th poll gives 52. *)
Theorem supplies_fetched_on_every_poll_once_full :
  let run := fun n => _monitor_loop (map good_poll (seq 0 n)) running_monitor in
  length (samples (fst (run 1000))) = 1000
  /\ supplies_calls (snd (run 1000)) = 50
  /\ length (samples (fst (run 1040))) = 1000
  /\ supplies_calls (snd (run 1040)) = 90
  /\ calls_supplies (snd (monitor_iteration (good_poll 1040) (fst (run 1040))))
     = true
  /\ calls_supplies (snd (monitor_iteration (good_poll 1041)
                            (fst (monitor_iteration (good_poll 1040)
                                    (fst (run 1040))))))
     = true.
Proof. vm_compute. repeat split; reflexivity. Qed.

(* ------------------------------------------------------------------ *)
(** *** C6 *)

(** C6: for every capacity [C] and every sequence of more than [C] appended
    samples, the buffer holds exactly the last [C] of them in insertion
    order, and after each insertion its length is at most [C]; the same for
    the buffer of a monitor built with capacity [C] after any run of the
    poller. *)
Theorem ring_buffer_keeps_last (C : nat) (xs : list Sample) :
  C < length xs ->
  deque_extend C [] xs = skipn (length xs - C) xs
  /\ length (deque_extend C [] xs) = C
  /\ (forall k, length (deque_extend C [] (firstn k xs)) <= C)
  /\ (forall sys envs,
        let (m, tr) := _monitor_loop envs (set_running (__init__ sys C) true) in
        samples m = skipn (length (appended tr) - C) (appended tr)
        /\ length (samples m) <= C).
Proof.
  intros HM. repeat split.
  - apply (deque_extend_slice C xs []). cbn. lia.
  - rewrite (deque_extend_slice C xs []) by (cbn; lia).
    rewrite slice_last_length. cbn [app]. lia.
  - intros k. apply deque_extend_length. cbn. lia.
  - intros sys envs.
    pose proof (monitor_loop_frame envs (set_running (__init__ sys C) true)) as F.
    destruct (_monitor_loop envs (set_running (__init__ sys C) true)) as [m tr].
    destruct F as (F & _). cbn in F. rewrite F.
    split.
    + apply (deque_extend_slice C (appended tr) []). cbn. lia.
    + apply deque_extend_length. cbn. lia.
Qed.

Lemma ring_buffer_keeps_last_witness :
  deque_extend 2 [] [sample_with_supplies; sample_without_supplies;
                     sample_with_supplies]
  = [sample_without_supplies; sample_with_supplies].
Proof.
  exact (proj1 (ring_buffer_keeps_last 2
                  [sample_with_supplies; sample_without_supplies;
                   sample_with_supplies]
                  (le_n 3))).
Defined.

(* ------------------------------------------------------------------ *)
(** *** C7 *)

(** C7, as stated, fails: two iterations whose power fetches alternate
    (success, then failure); the first one's power-supply fetch raises.
    One power fetch succeeded, no sample is appended. *)
Lemma supplies_failure_breaks_the_count :
  alternates [supplies_fail; power_fails] = true
  /\ power_successes [supplies_fail; power_fails] = 1
  /\ length (appended (snd (_monitor_loop [supplies_fail; power_fails]
                              running_monitor))) = 0.
Proof. repeat split; reflexivity. Qed.

(** C7, amended: for every sequence of poll iterations in which no
    power-supply fetch fails (alternating power fetches included), the
    number of samples appended equals the number of successful power
    fetches, and the loop is still running at the end; a failed power fetch
    overwrites [last_error] with the error, sleeps the 1.0 s backoff,
    appends no sample, and the loop goes on with the next iteration. *)
Theorem poller_appends_one_sample_per_success
    (envs : list PollEnv) (m : AsyncPowerMonitor) :
  running m = true ->
  Forall (fun env => is_ok (env_supplies env) = true) envs ->
  length (appended (snd (_monitor_loop envs m))) = power_successes envs
  /\ running (fst (_monitor_loop envs m)) = true
  /\ (forall env rest e,
        env_power env = Raise e ->
        let m' := set_last_error m e in
        _monitor_loop (env :: rest) m
        = (fst (_monitor_loop rest m'),
           [CallPower; Sleep 1%Q] ++ snd (_monitor_loop rest m'))
        /\ last_error m' = Some e
        /\ samples m' = samples m
        /\ running m' = true).
Proof.
  intros Hrun Hall. repeat split.
  - apply monitor_loop_count; assumption.
  - pose proof (monitor_loop_frame envs m) as F.
    destruct (_monitor_loop envs m) as [m' tr]. cbn [fst].
    destruct F as (_ & _ & -> & _). exact Hrun.
  - cbn [_monitor_loop]. rewrite Hrun.
    rewrite (monitor_iteration_power_fails env m e H).
    destruct (_monitor_loop rest (set_last_error m e)). reflexivity.
  - exact Hrun.
Qed.

Lemma poller_appends_one_sample_per_success_witness :
  alternates [good_poll 0; power_fails; good_poll 2; power_fails] = true
  /\ length (appended (snd (_monitor_loop
                              [good_poll 0; power_fails; good_poll 2; power_fails]
                              running_monitor))) = 2.
Proof.
  split; [reflexivity |].
  apply (poller_appends_one_sample_per_success
           [good_poll 0; power_fails; good_poll 2; power_fails]
           running_monitor).
  - reflexivity.
  - repeat constructor.
Defined.

(** ** The read methods *)

Section Reads.
Context {St A : Type} (c : Method St A).
Hypothesis c_reads : forall s, snd (c s) = s.

(** A method that leaves the object alone returns the same result however
    often it is called. *)
Lemma call_times_read (n : nat) (s : St) :
  call_times n c s = (repeat (fst (c s)) n, s).
Proof.
  induction n as [| n IH]; [reflexivity |].
  cbn [call_times repeat]. specialize (c_reads s).
  destruct (c s) as [a s1]. cbn [fst snd] in *. subst s1.
  rewrite IH. reflexivity.
Qed.
End Reads.

(* ------------------------------------------------------------------ *)
(** *** C9 *)

(** C9: [get_samples] and [get_latest_sample] leave the monitor as it is,
    so any number of calls in a row return the same result; and
    [get_latest_sample] always returns: [None] on an empty buffer, the most
    recent sample otherwise. *)
Theorem reads_are_idempotent (m : AsyncPowerMonitor) (since_time : option Q)
                             (n : nat) :
  call_times n (get_samples since_time) m
  = (repeat (fst (get_samples since_time m)) n, m)
  /\ call_times n get_latest_sample m
     = (repeat (fst (get_latest_sample m)) n, m)
  /\ fst (get_samples None m) = samples m
  /\ (samples m = [] -> fst (get_latest_sample m) = None)
  /\ (forall older newest,
        samples m = older ++ [newest] ->
        fst (get_latest_sample m) = Some newest).
Proof.
  repeat split.
  - apply call_times_read. intros s. destruct since_time; reflexivity.
  - apply call_times_read. reflexivity.
  - intros H. cbn. rewrite H. reflexivity.
  - intros older newest H. cbn. rewrite H, last_item_snoc.
    destruct older; reflexivity.
Qed.

Lemma reads_are_idempotent_witness :
  fst (get_latest_sample (monitor_with [])) = None
  /\ fst (get_latest_sample
            (monitor_with [sample_with_supplies; sample_without_supplies]))
     = Some sample_without_supplies.
Proof.
  split.
  - apply (proj1 (proj2 (proj2 (proj2
             (reads_are_idempotent (monitor_with []) None 3))))).
    reflexivity.
  - apply (proj2 (proj2 (proj2 (proj2
             (reads_are_idempotent
                (monitor_with [sample_with_supplies; sample_without_supplies])
                None 3))))
             [sample_with_supplies] sample_without_supplies).
    reflexivity.
Defined.

(** ** Starting the monitor *)

Lemma update_nth_last {A} (f : A -> A) (l : list A) (x : A) :
  update_nth (length l) f (l ++ [x]) = l ++ [f x].
Proof. induction l as [| y l IH]; cbn; [| rewrite IH]; reflexivity. Qed.

(* ------------------------------------------------------------------ *)
(** *** C10 *)

(** C10: [start()] on a running monitor returns [False] and changes neither
    the monitor nor the thread table; on a stopped monitor it sets
    [running], creates one daemon thread running [_monitor_loop], starts it,
    keeps its handle in [thread], leaves the buffered samples alone, and
    returns [True]. *)
Theorem start_spec (p : Process) :
  (running (monitor p) = true -> start p = (false, p))
  /\ (running (monitor p) = false ->
      start p
      = (true,
         {| monitor := set_thread (set_running (monitor p) true)
                                  (Some (length (threads p)));
            threads := threads p ++ [{| target := "_monitor_loop";
                                        daemon := true;
                                        started := true |}] |})
      /\ samples (monitor (snd (start p))) = samples (monitor p)
      /\ length (threads (snd (start p))) = S (length (threads p))).
Proof.
  split; intros H.
  - unfold start, bind, gets. rewrite H. destruct p; reflexivity.
  - assert (E : start p
      = (true,
         {| monitor := set_thread (set_running (monitor p) true)
                                  (Some (length (threads p)));
            threads := threads p ++ [{| target := "_monitor_loop";
                                        daemon := true;
                                        started := true |}] |})).
    { unfold start, bind, gets, on_monitor, on_thread, new_thread, modify, ret.
      rewrite H. cbn. rewrite !update_nth_last. reflexivity. }
    rewrite E. cbn. rewrite length_app. cbn. repeat split. lia.
Qed.

Lemma start_spec_witness :
  start started_process = (false, started_process)
  /\ fst (start fresh_process) = true
  /\ length (threads started_process) = 1.
Proof.
  split; [| split].
  - apply (proj1 (start_spec started_process)). reflexivity.
  - rewrite (proj1 (proj2 (start_spec fresh_process) eq_refl)). reflexivity.
  - exact (proj2 (proj2 (proj2 (start_spec fresh_process) eq_refl))).
Defined.

(** ** The rate estimator *)

Lemma Qle_bool_false (x y : Q) : Qle_bool x y = false <-> (y < x)%Q.
Proof.
  split; intros H.
  - apply Qnot_le_lt. intros Hle. apply Qle_bool_iff in Hle. congruence.
  - destruct (Qle_bool x y) eqn:E; [| reflexivity].
    apply Qle_bool_iff in E. exfalso. exact (Qlt_not_le _ _ H E).
Qed.

(** The two subscripts of [get_sampling_rate] are in range. *)
Lemma recent_samples_ends (l : list Sample) :
  2 <= length l ->
  exists oldest newest,
    hd_error (slice_last (Nat.min 10 (length l)) l) = Some oldest
    /\ last_item (slice_last (Nat.min 10 (length l)) l) = Some newest.
Proof.
  intros H.
  pose proof (slice_last_length (Nat.min 10 (length l)) l) as Hlen.
  destruct (slice_last (Nat.min 10 (length l)) l) as [| oldest rest] eqn:E.
  - cbn [length] in Hlen. lia.
  - destruct (@last_item_some _ (oldest :: rest)) as [newest Hn]; [discriminate |].
    exists oldest, newest. split; [reflexivity | exact Hn].
Qed.

Lemma get_sampling_rate_returns (m : AsyncPowerMonitor) :
  exists r, fst (get_sampling_rate m) = Ok r.
Proof.
  unfold get_sampling_rate, with_lock, gets. cbn [fst].
  destruct (Nat.ltb_spec (length (samples m)) 2) as [Hlt | Hge]; [eauto |].
  destruct (Nat.min 10 (length (samples m)) <? 2); [eauto |].
  destruct (recent_samples_ends (samples m) Hge) as (o & n & -> & ->).
  destruct (Qle_bool (time n - time o) 0); eauto.
Qed.

Lemma get_sampling_rate_two (m : AsyncPowerMonitor) (s1 s2 : Sample) :
  samples m = [s1; s2] ->
  fst (get_sampling_rate m)
  = if Qle_bool (time s2 - time s1) 0 then Ok 0%Q
    else Ok (inject_Z 1 / (time s2 - time s1))%Q.
Proof.
  intros H. unfold get_sampling_rate, with_lock, gets. rewrite H. reflexivity.
Qed.

(* ------------------------------------------------------------------ *)
(** *** C5 *)

(** C5: [get_sampling_rate] looks at the most recent [min(10, len)]
    samples.  It returns 0 on fewer than 2 samples; with at least 2, it
    returns 0 when the time from the oldest to the newest of those samples
    is at most 0, and [(count - 1)] divided by that time otherwise.  On two
    samples whose [time] fields are 1 apart it returns 1.  It changes
    nothing in the monitor. *)
Theorem get_sampling_rate_spec (m : AsyncPowerMonitor) :
  let l := samples m in
  let count := Nat.min 10 (length l) in
  let recent := skipn (length l - count) l in
  snd (get_sampling_rate m) = m
  /\ length recent = count
  /\ (length l < 2 -> fst (get_sampling_rate m) = Ok 0%Q)
  /\ (2 <= length l ->
      exists oldest newest,
        hd_error recent = Some oldest
        /\ last_item recent = Some newest
        /\ ((time newest - time oldest <= 0)%Q ->
            fst (get_sampling_rate m) = Ok 0%Q)
        /\ ((0 < time newest - time oldest)%Q ->
            fst (get_sampling_rate m)
            = Ok (inject_Z (Z.of_nat (count - 1))
                  / (time newest - time oldest))%Q))
  /\ (forall s1 s2,
        l = [s1; s2] ->
        (time s2 - time s1 == 1)%Q ->
        exists r, fst (get_sampling_rate m) = Ok r /\ (r == 1)%Q).
Proof.
  cbv zeta. repeat split.
  - rewrite length_skipn. lia.
  - intros Hlt. unfold get_sampling_rate, with_lock, gets. cbn [fst].
    destruct (Nat.ltb_spec (length (samples m)) 2); [reflexivity | lia].
  - intros Hge.
    destruct (recent_samples_ends (samples m) Hge) as (o & n & Ho & Hn).
    exists o, n. unfold slice_last in Ho, Hn.
    split; [exact Ho | split; [exact Hn |]].
    unfold get_sampling_rate, with_lock, gets, slice_last. cbn [fst].
    destruct (Nat.ltb_spec (length (samples m)) 2); [lia |].
    destruct (Nat.ltb_spec (Nat.min 10 (length (samples m))) 2); [lia |].
    rewrite Ho, Hn. split; intros Hd.
    + apply Qle_bool_iff in Hd. rewrite Hd. reflexivity.
    + apply Qle_bool_false in Hd. rewrite Hd. reflexivity.
  - intros s1 s2 Hl Hd.
    rewrite (get_sampling_rate_two m s1 s2 Hl).
    assert (Hpos : Qle_bool (time s2 - time s1) 0 = false).
    { apply Qle_bool_false. rewrite Hd. reflexivity. }
    rewrite Hpos. eexists. split; [reflexivity |].
    rewrite Hd. reflexivity.
Qed.

Lemma get_sampling_rate_spec_witness :
  fst (get_sampling_rate (monitor_with [])) = Ok 0%Q
  /\ exists r,
       fst (get_sampling_rate
              (monitor_with [sample_with_supplies; sample_without_supplies]))
       = Ok r /\ (r == 1)%Q.
Proof.
  split.
  - apply (proj1 (proj2 (proj2 (get_sampling_rate_spec (monitor_with []))))).
    vm_compute. lia.
  - apply (proj2 (proj2 (proj2 (proj2
             (get_sampling_rate_spec
                (monitor_with [sample_with_supplies; sample_without_supplies])))))
             sample_with_supplies sample_without_supplies).
    + reflexivity.
    + reflexivity.
Defined.

(** ** Column names *)

Section Columns.
Local Open Scope string_scope.

Lemma length_append (a b : string) :
  String.length (a ++ b) = String.length a + String.length b.
Proof. induction a as [| c a IH]; cbn; [| rewrite IH]; reflexivity. Qed.

Lemma append_inj_left (s : string) :
  forall a b, a ++ s = b ++ s -> a = b.
Proof.
  induction a as [| c a IH]; intros [| c' b] H; cbn in H.
  - reflexivity.
  - apply (f_equal String.length) in H. cbn in H.
    rewrite length_append in H. lia.
  - apply (f_equal String.length) in H. cbn in H.
    rewrite length_append in H. lia.
  - injection H as -> H. f_equal. apply IH, H.
Qed.

(** No id makes an output column name equal to an input column name. *)
Lemma output_suffix_not_input :
  forall i j, i ++ "_output_watts" <> j ++ "_input_watts".
Proof.
  induction i as [| c i IH]; intros [| c' j] H; cbn in H.
  - discriminate.
  - injection H as _ H. pose proof (f_equal String.length H) as L.
    rewrite length_append in L. cbn in L.
    destruct j as [| c'' j]; [cbn in H; discriminate | cbn in L; lia].
  - injection H as _ H. apply (f_equal String.length) in H.
    rewrite length_append in H. cbn in H. lia.
  - injection H as _ H. exact (IH j H).
Qed.

Lemma output_column_inj i j : output_column i = output_column j -> i = j.
Proof.
  unfold output_column. cbn. intros H. injection H as H.
  exact (append_inj_left _ _ _ H).
Qed.

Lemma input_column_inj i j : input_column i = input_column j -> i = j.
Proof.
  unfold input_column. cbn. intros H. injection H as H.
  exact (append_inj_left _ _ _ H).
Qed.

Lemma output_column_not_input i j : output_column i <> input_column j.
Proof.
  unfold output_column, input_column. cbn. intros H. injection H as H.
  exact (output_suffix_not_input _ _ H).
Qed.

Lemma output_column_not_base i : ~ In (output_column i) base_fieldnames.
Proof. cbn. intros [H | [H | [H | []]]]; discriminate. Qed.

Lemma input_column_not_base i : ~ In (input_column i) base_fieldnames.
Proof. cbn. intros [H | [H | [H | []]]]; discriminate. Qed.
End Columns.

(** ** Rows and the writer *)

Section Writer.
Implicit Types (w : DictWriter) (r : Row) (f : CsvFile).

Lemma mem_In k l : mem k l = true <-> In k l.
Proof.
  unfold mem. rewrite existsb_exists. split.
  - intros (x & Hin & Heq). apply String.eqb_eq in Heq. subst. exact Hin.
  - intros Hin. exists k. split; [exact Hin | apply String.eqb_refl].
Qed.

Lemma keys_dict_set r k v x :
  In x (keys (dict_set r k v)) -> In x (keys r) \/ x = k.
Proof.
  induction r as [| [k' v'] r IH]; cbn.
  - intros [<- | []]. right. reflexivity.
  - destruct (String.eqb k' k); cbn; intros [H | H]; auto.
    destruct (IH H); auto.
Qed.

Lemma dict_get_absent r k : ~ In k (keys r) -> dict_get r k = None.
Proof.
  induction r as [| [k' v'] r IH]; cbn; intros H; [reflexivity |].
  destruct (String.eqb_spec k' k) as [-> | _].
  - exfalso. apply H. left. reflexivity.
  - apply IH. intros Hin. apply H. right. exact Hin.
Qed.

(** The keys of the row of a sample: the base columns and the two columns
    of each of its power supplies. *)
Lemma keys_supplies_loop (l : list PowerSupply) :
  forall r x,
    In x (keys (fold_left
                  (fun row ps =>
                     dict_set (dict_set row (output_column (id ps))
                                            (cell_of (output_watts ps)))
                              (input_column (id ps))
                              (cell_of (input_watts ps))) l r)) ->
    In x (keys r)
    \/ exists i, In i (map id l)
                 /\ (x = output_column i \/ x = input_column i).
Proof.
  induction l as [| ps l IH]; intros r x H; cbn [fold_left] in H.
  - left. exact H.
  - destruct (IH _ _ H) as [Hin | (i & Hi & Hx)].
    + destruct (keys_dict_set _ _ _ _ Hin) as [Hin' | ->].
      * destruct (keys_dict_set _ _ _ _ Hin') as [Hin'' | ->].
        -- left. exact Hin''.
        -- right. exists (id ps). cbn. auto.
      * right. exists (id ps). cbn. auto.
    + right. exists i. cbn. auto.
Qed.

Lemma keys_make_row (elapsed : Q) (s : Sample) x :
  In x (keys (make_row elapsed s)) ->
  In x base_fieldnames
  \/ exists i, In i (supply_ids s)
               /\ (x = output_column i \/ x = input_column i).
Proof.
  unfold make_row, supply_ids.
  destruct (truthy (power_supplies s)).
  - intros H. apply keys_supplies_loop in H.
    destruct H as [H | H]; [left; exact H | right; exact H].
  - intros H. left. exact H.
Qed.

(** The header: the base columns, then two columns per id. *)
Lemma header_fieldnames_flat (ids : list string) :
  header_fieldnames ids
  = base_fieldnames
    ++ flat_map (fun i => [output_column i; input_column i]) ids.
Proof.
  unfold header_fieldnames. generalize base_fieldnames as acc.
  induction ids as [| i ids IH]; intros acc; cbn [fold_left flat_map].
  - rewrite app_nil_r. reflexivity.
  - rewrite IH, <- !app_assoc. reflexivity.
Qed.

Lemma In_header_fieldnames (ids : list string) x :
  In x (header_fieldnames ids)
  <-> In x base_fieldnames
      \/ exists i, In i ids /\ (x = output_column i \/ x = input_column i).
Proof.
  rewrite header_fieldnames_flat, in_app_iff, in_flat_map.
  split; intros [H | (i & Hi & Hx)]; auto; right; exists i; split; auto.
  - destruct Hx as [<- | [<- | []]]; auto.
  - destruct Hx as [-> | ->]; cbn; auto.
Qed.

(** A sample whose ids are among the header's gives a row the writer
    accepts. *)
Lemma make_row_fits (ids : list string) (elapsed : Q) (s : Sample) :
  incl (supply_ids s) ids ->
  fits {| fieldnames := header_fieldnames ids |} (make_row elapsed s) = true.
Proof.
  intros Hincl. unfold fits. apply forallb_forall. intros x Hx.
  apply mem_In. cbn [fieldnames]. apply In_header_fieldnames.
  destruct (keys_make_row _ _ _ Hx) as [H | (i & Hi & H)]; [left; exact H |].
  right. exists i. split; [apply Hincl, Hi | exact H].
Qed.

(** A sample with an id outside the header gives a row it rejects. *)
Lemma filter_none {A} (p : A -> bool) (l : list A) :
  forallb p l = true -> filter (fun x => negb (p x)) l = [].
Proof.
  induction l as [| x l IH]; cbn; [reflexivity |].
  intros H. apply andb_prop in H. destruct H as [Hx Hl].
  rewrite Hx. cbn. apply IH, Hl.
Qed.

Lemma filter_some {A} (p : A -> bool) (l : list A) :
  forallb p l = false -> truthy (filter (fun x => negb (p x)) l) = true.
Proof.
  induction l as [| x l IH]; cbn; [discriminate |].
  destruct (p x); cbn; [exact IH | reflexivity].
Qed.

Lemma _dict_to_list_fits w r :
  fits w r = true -> _dict_to_list w r = Ok (record_of w r).
Proof.
  intros H. unfold _dict_to_list, fits in *.
  rewrite (filter_none _ _ H). reflexivity.
Qed.

Lemma _dict_to_list_extra w r :
  fits w r = false ->
  _dict_to_list w r
  = Raise "ValueError: dict contains fields not in fieldnames".
Proof.
  intros H. unfold _dict_to_list, fits in *.
  rewrite (filter_some _ _ H). reflexivity.
Qed.

Lemma _dict_to_list_ok w r cells :
  _dict_to_list w r = Ok cells -> cells = record_of w r.
Proof.
  unfold _dict_to_list.
  destruct (truthy _); [discriminate |]. intros H. injection H as <-.
  reflexivity.
Qed.

(** [writerows] either writes every row, in order, or raises. *)
Lemma writerows_ok w rows :
  forall f f',
    writerows w rows f = (f', None) -> f' = f ++ map (record_of w) rows.
Proof.
  induction rows as [| r rows IH]; intros f f' H; cbn in H.
  - injection H as <-. cbn. rewrite app_nil_r. reflexivity.
  - destruct (_dict_to_list w r) as [cells | e] eqn:E; [| discriminate].
    apply _dict_to_list_ok in E. subst cells.
    rewrite (IH _ _ H), <- app_assoc. reflexivity.
Qed.

Lemma writerows_fits w rows :
  forall f,
    forallb (fits w) rows = true ->
    writerows w rows f = (f ++ map (record_of w) rows, None).
Proof.
  induction rows as [| r rows IH]; intros f H; cbn in *.
  - rewrite app_nil_r. reflexivity.
  - apply andb_prop in H. destruct H as [Hr Hrows].
    rewrite (_dict_to_list_fits w r Hr), (IH _ Hrows), <- app_assoc.
    reflexivity.
Qed.
End Writer.

(** ** The exporter *)

(* ------------------------------------------------------------------ *)
(** *** C4 *)




Section Exporter.
Variable args : Args.
Implicit Types (st : Exporter) (t : Tick) (tr ev : list ExportEvent).

Lemma rows_appended_app tr1 tr2 :
  rows_appended (tr1 ++ tr2) = rows_appended tr1 ++ rows_appended tr2.
Proof. unfold rows_appended. apply flat_map_app. Qed.

Lemma rows_flushed_app tr1 tr2 :
  rows_flushed (tr1 ++ tr2) = rows_flushed tr1 ++ rows_flushed tr2.
Proof. unfold rows_flushed. apply flat_map_app. Qed.

Lemma flush_sizes_app tr1 tr2 :
  flush_sizes (tr1 ++ tr2) = flush_sizes tr1 ++ flush_sizes tr2.
Proof. unfold flush_sizes. apply flat_map_app. Qed.

Lemma final_flushes_app tr1 tr2 :
  final_flushes (tr1 ++ tr2) = final_flushes tr1 + final_flushes tr2.
Proof. unfold final_flushes. rewrite filter_app, length_app. reflexivity. Qed.

(** The sample block touches neither the writer nor the file. *)
Lemma sample_block_frame t st :
  let (st1, ev) := sample_block args t st in
  writer st1 = writer st
  /\ csvfile st1 = csvfile st
  /\ buffer st1 = buffer st ++ rows_appended ev
  /\ rows_flushed ev = []
  /\ final_flushes ev = 0
  /\ flush_sizes ev = []
  /\ length (rows_appended ev) <= 1.
Proof.
  unfold sample_block.
  destruct (Qle_bool (next_sample_time st) (current_time t)).
  - destruct (fst (get_latest_sample (mon t))); cbn;
      rewrite ?app_nil_r; repeat split; lia.
  - cbn. rewrite app_nil_r. repeat split; lia.
Qed.

(** The flush block: below the threshold nothing happens; at or above it
    the whole buffer goes to [writerows] and, unless that raises, is
    cleared. *)
Lemma flush_block_below st :
  (Z.of_nat (length (buffer st)) < buffer_size args)%Z ->
  flush_block args st = (Continue st, []).
Proof.
  intros H. unfold flush_block.
  destruct (Z.leb_spec (buffer_size args) (Z.of_nat (length (buffer st))));
    [lia | reflexivity].
Qed.

Lemma flush_block_reached st :
  (buffer_size args <= Z.of_nat (length (buffer st)))%Z ->
  forallb (fits (writer st)) (buffer st) = true ->
  flush_block args st
  = (Continue (set_file_buffer st
                 (csvfile st ++ map (record_of (writer st)) (buffer st)) []),
     [Flush (buffer st)]).
Proof.
  intros H Hfits. unfold flush_block.
  destruct (Z.leb_spec (buffer_size args) (Z.of_nat (length (buffer st))));
    [| lia].
  rewrite (writerows_fits _ _ _ Hfits). reflexivity.
Qed.

Lemma flush_block_frame st :
  let (o, ev) := flush_block args st in
  writer (state_of o) = writer st
  /\ rows_appended ev = []
  /\ final_flushes ev = 0
  /\ (crashed o = false ->
      csvfile (state_of o)
      = csvfile st ++ map (record_of (writer st)) (rows_flushed ev)
      /\ rows_flushed ev ++ buffer (state_of o) = buffer st
      /\ (exists st', o = Continue st')).
Proof.
  unfold flush_block.
  destruct (buffer_size args <=? Z.of_nat (length (buffer st)))%Z.
  - destruct (writerows (writer st) (buffer st) (csvfile st))
      as [f [e |]] eqn:W; cbn.
    + repeat split; discriminate.
    + apply writerows_ok in W. subst f. rewrite !app_nil_r.
      repeat split. eauto.
  - cbn. rewrite app_nil_r. repeat split. eauto.
Qed.

Lemma iteration_conserves t st :
  let (o, ev) := iteration args t st in
  writer (state_of o) = writer st
  /\ final_flushes ev = 0
  /\ (crashed o = false ->
      csvfile (state_of o)
      = csvfile st ++ map (record_of (writer st)) (rows_flushed ev)
      /\ rows_flushed ev ++ buffer (state_of o)
         = buffer st ++ rows_appended ev).
Proof.
  unfold iteration. destruct (duration_reached args t st).
  - cbn. rewrite !app_nil_r. auto.
  - pose proof (sample_block_frame t st) as S1.
    destruct (sample_block args t st) as [st1 ev1].
    pose proof (flush_block_frame st1) as F1.
    destruct (flush_block args st1) as [o ev2].
    destruct S1 as (Sw & Sf & Sb & Sfl & Sff & _).
    destruct F1 as (Fw & Fa & Fff & Fc).
    rewrite final_flushes_app, rows_flushed_app, rows_appended_app.
    rewrite Sfl, Sff, Fa, Fff, app_nil_r. cbn [app].
    repeat split; try congruence.
    + destruct (Fc H) as (Hc & _). congruence.
    + destruct (Fc H) as (_ & Hb & _). congruence.
Qed.

Lemma interrupted_conserves p t st :
  let (o, ev) := interrupted args p t st in
  writer (state_of o) = writer st
  /\ final_flushes ev = 0
  /\ (crashed o = false ->
      (exists st', o = Break st')
      /\ csvfile (state_of o)
         = csvfile st ++ map (record_of (writer st)) (rows_flushed ev)
      /\ buffer (state_of o) = buffer st ++ rows_appended ev
      /\ incl (rows_flushed ev) (buffer (state_of o))
      /\ (match p with InWriterows _ => False | _ => True end ->
          rows_flushed ev = [])).
Proof.
  assert (Hstay : forall st0,
    writer (state_of (Break st0)) = writer st0
    /\ final_flushes [] = 0
    /\ (crashed (Break st0) = false ->
        (exists st', Break st0 = Break st')
        /\ csvfile (state_of (Break st0))
           = csvfile st0 ++ map (record_of (writer st0)) (rows_flushed [])
        /\ buffer (state_of (Break st0)) = buffer st0 ++ rows_appended []
        /\ incl (rows_flushed []) (buffer (state_of (Break st0)))
        /\ (match p with InWriterows _ => False | _ => True end ->
            rows_flushed [] = []))).
  { intros st0. cbn. rewrite !app_nil_r. repeat split; eauto.
    intros x []. }
  pose proof (sample_block_frame t st) as S1.
  unfold interrupted. destruct p as [| | k].
  - apply Hstay.
  - destruct (duration_reached args t st); [apply Hstay |].
    destruct (sample_block args t st) as [st1 ev1].
    destruct S1 as (Sw & Sf & Sb & Sfl & Sff & _).
    cbn. rewrite Sfl, app_nil_r. repeat split; eauto. intros x [].
  - destruct (duration_reached args t st); [apply Hstay |].
    destruct (sample_block args t st) as [st1 ev1].
    destruct S1 as (Sw & Sf & Sb & Sfl & Sff & _).
    destruct (buffer_size args <=? Z.of_nat (length (buffer st1)))%Z.
    + destruct (writerows (writer st1) (firstn k (buffer st1)) (csvfile st1))
        as [f [e |]] eqn:W; cbn.
      * rewrite final_flushes_app, Sff. repeat split; try discriminate.
        exact Sw.
      * apply writerows_ok in W. subst f.
        rewrite final_flushes_app, rows_flushed_app, rows_appended_app.
        rewrite Sff, Sfl. cbn. rewrite !app_nil_r.
        repeat split; eauto; try congruence.
        -- intros x Hx. rewrite <- (firstn_skipn k (buffer st1)).
           apply in_or_app. left. exact Hx.
        -- intros [].
    + cbn. rewrite Sfl, app_nil_r. repeat split; eauto; intros x [].
Qed.
End Exporter.

(** The loop conserves rows: what was flushed and cleared, followed by what
    is still buffered, is what was buffered at the start followed by what
    was appended.  [partial] is what an interrupt inside [writerows] had
    written of a batch that stays in the buffer. *)
Lemma export_loop_conserves (args : Args) (inputs : list LoopInput) :
  forall st,
    let (o, tr) := export_loop args inputs st in
    writer (state_of o) = writer st
    /\ final_flushes tr = 0
    /\ (crashed o = false ->
        exists done partial,
          rows_flushed tr = done ++ partial
          /\ done ++ buffer (state_of o) = buffer st ++ rows_appended tr
          /\ csvfile (state_of o)
             = csvfile st ++ map (record_of (writer st)) (rows_flushed tr)
          /\ incl partial (buffer (state_of o))
          /\ (in_writerows inputs = false -> partial = [])).
Proof.
  induction inputs as [| [t | p t] rest IH]; intros st; cbn [export_loop].
  - cbn. split; [reflexivity |]. split; [reflexivity |]. intros _.
    exists [], []. cbn. rewrite !app_nil_r. repeat split. intros x [].
  - pose proof (iteration_conserves args t st) as I1.
    destruct (iteration args t st) as [[st1 | st1 | e st1] ev1].
    + specialize (IH st1).
      destruct (export_loop args rest st1) as [o tr2].
      destruct I1 as (Iw & Iff & Ic). destruct IH as (Hw & Hff & Hc).
      cbn [state_of] in *. specialize (Ic eq_refl). destruct Ic as (Icsv & Ibuf).
      split; [congruence |].
      split; [rewrite final_flushes_app; lia |].
      intros Hok. destruct (Hc Hok) as (done & partial & Hfl & Hbuf & Hcsv & Hin & Hnone).
      exists (rows_flushed ev1 ++ done), partial.
      rewrite rows_flushed_app, rows_appended_app, Hfl.
      repeat split.
      * rewrite app_assoc. reflexivity.
      * rewrite <- app_assoc, Hbuf, app_assoc, Ibuf, <- app_assoc. reflexivity.
      * rewrite Hcsv, Icsv, Iw, map_app, Hfl, <- app_assoc. reflexivity.
      * exact Hin.
      * exact Hnone.
    + destruct I1 as (Iw & Iff & Ic). cbn [state_of] in *.
      split; [exact Iw |]. split; [exact Iff |]. intros _.
      destruct (Ic eq_refl) as (Icsv & Ibuf).
      exists (rows_flushed ev1), []. rewrite app_nil_r.
      repeat split; auto. intros x [].
    + destruct I1 as (Iw & Iff & _).
      split; [exact Iw |]. split; [exact Iff |]. discriminate.
  - pose proof (interrupted_conserves args p t st) as I1.
    destruct (interrupted args p t st) as [o ev].
    destruct I1 as (Iw & Iff & Ic).
    split; [exact Iw |]. split; [exact Iff |]. intros Hok.
    destruct (Ic Hok) as (_ & Icsv & Ibuf & Hincl & Hnone).
    exists [], (rows_flushed ev). cbn [app].
    repeat split; auto.
    intros Hin. apply Hnone. cbn in Hin.
    destruct p; [exact I | exact I | discriminate].
Qed.

(** With a positive threshold and a buffer below it, every batch the flush
    block writes has exactly [buffer_size] rows. *)
Lemma iteration_flush_sizes (args : Args) (t : Tick) (st : Exporter) :
  (0 < buffer_size args)%Z ->
  (Z.of_nat (length (buffer st)) < buffer_size args)%Z ->
  let (o, ev) := iteration args t st in
  Forall (fun n => Z.of_nat n = buffer_size args) (flush_sizes ev)
  /\ (forall st', o = Continue st' ->
                  (Z.of_nat (length (buffer st')) < buffer_size args)%Z).
Proof.
  intros Hpos Hlen. unfold iteration.
  destruct (duration_reached args t st).
  - split; [constructor | discriminate].
  - pose proof (sample_block_frame args t st) as S1.
    destruct (sample_block args t st) as [st1 ev1].
    destruct S1 as (_ & _ & Sb & _ & _ & Ss & Sone).
    assert (Hlen1 : (Z.of_nat (length (buffer st1)) <= buffer_size args)%Z).
    { rewrite Sb, length_app. lia. }
    unfold flush_block.
    destruct (Z.leb_spec (buffer_size args) (Z.of_nat (length (buffer st1)))).
    + destruct (writerows (writer st1) (buffer st1) (csvfile st1)) as [f [e |]];
        rewrite flush_sizes_app, Ss; cbn.
      * split; [constructor; [lia | constructor] | discriminate].
      * split; [constructor; [lia | constructor] |].
        intros st' H'. injection H' as <-. cbn. lia.
    + rewrite flush_sizes_app, Ss. cbn.
      split; [constructor |]. intros st' H'. injection H' as <-. exact H.
Qed.

Lemma export_loop_flush_sizes (args : Args) (inputs : list LoopInput) :
  (0 < buffer_size args)%Z ->
  in_writerows inputs = false ->
  forall st,
    (Z.of_nat (length (buffer st)) < buffer_size args)%Z ->
    Forall (fun n => Z.of_nat n = buffer_size args)
           (flush_sizes (snd (export_loop args inputs st))).
Proof.
  intros Hpos. induction inputs as [| [t | p t] rest IH];
    intros Hin st Hlen; cbn [export_loop].
  - constructor.
  - pose proof (iteration_flush_sizes args t st Hpos Hlen) as I1.
    destruct (iteration args t st) as [[st1 | st1 | e st1] ev1];
      destruct I1 as (Hsz & Hnext); cbn [snd]; try exact Hsz.
    specialize (IH Hin st1 (Hnext st1 eq_refl)).
    destruct (export_loop args rest st1) as [o tr2]. cbn [snd] in *.
    rewrite flush_sizes_app. apply Forall_app. split; assumption.
  - cbn in Hin. destruct p as [| | k]; [| | discriminate].
    + constructor.
    + unfold interrupted. destruct (duration_reached args t st); [constructor |].
      pose proof (sample_block_frame args t st) as S1.
      destruct (sample_block args t st) as [st1 ev1].
      destruct S1 as (_ & _ & _ & _ & _ & Ss & _). cbn [snd]. rewrite Ss.
      constructor.
Qed.

Lemma final_flush_writer (st : Exporter) :
  writer (state_of (fst (final_flush st))) = writer st.
Proof.
  unfold final_flush. destruct (truthy (buffer st)); [| reflexivity].
  destruct (writerows (writer st) (buffer st) (csvfile st)) as [f [e |]];
    reflexivity.
Qed.

(** Nothing in the run replaces the writer, whatever the outcome. *)
Lemma export_run_writer (args : Args) (inputs : list LoopInput) (st : Exporter) :
  writer (state_of (fst (export_run args inputs st))) = writer st.
Proof.
  unfold export_run.
  pose proof (export_loop_conserves args inputs st) as L.
  destruct (export_loop args inputs st) as [[st1 | st1 | e st1] tr1];
    destruct L as (Lw & _); cbn [state_of] in Lw; try exact Lw.
  pose proof (final_flush_writer st1) as F.
  destruct (final_flush st1) as [o ev2]. cbn [fst] in *. congruence.
Qed.

(** A row has no cell for the columns of an id its sample does not list. *)
Lemma make_row_missing_id (elapsed : Q) (s : Sample) (i : string) :
  ~ In i (supply_ids s) ->
  cell_for (make_row elapsed s) (output_column i) = Str ""
  /\ cell_for (make_row elapsed s) (input_column i) = Str "".
Proof.
  intros Hi. unfold cell_for. split.
  - rewrite dict_get_absent; [reflexivity |]. intros Hin.
    destruct (keys_make_row _ _ _ Hin) as [Hb | (j & Hj & [He | He])].
    + exact (output_column_not_base i Hb).
    + apply output_column_inj in He. subst j. exact (Hi Hj).
    + exact (output_column_not_input _ _ He).
  - rewrite dict_get_absent; [reflexivity |]. intros Hin.
    destruct (keys_make_row _ _ _ Hin) as [Hb | (j & Hj & [He | He])].
    + exact (input_column_not_base i Hb).
    + symmetry in He. exact (output_column_not_input _ _ He).
    + apply input_column_inj in He. subst j. exact (Hi Hj).
Qed.

(* ------------------------------------------------------------------ *)
(** *** C2 *)

(** C2: the column set is to come from the first sample that carries
    power-supply data, and every later sample is to be exported; the code
    does neither on this input.  The first sample of the buffer carries the
    supplies PS1 and PS2, the latest one carries none: the header code, which
    reads [get_latest_sample] under the comment "Get power supply IDs for CSV
    header", gives the header no power-supply column, where the claim's rule
    gives it those of PS1 and PS2.  When a later sample carries PS1 and PS2
    again, the row code adds their columns, the writer refuses the row and
    the flush raises: of the two rows appended one is written, and the export
    stops on the exception. *)
Lemma header_not_from_first_supplies_sample :
  let st := open_export (monitor_with warm_up) 0%Q in
  let run := export_run small_args
               [Runs (tick_at 0 warm_up); Runs (tick_at (1 # 4) later_on)] st in
  spec_power_supply_ids warm_up = ["PS1"; "PS2"]
  /\ power_supply_ids (fst (get_latest_sample (monitor_with warm_up))) = []
  /\ fieldnames (writer st) = base_fieldnames
  /\ crashed (fst run) = true
  /\ length (rows_appended (snd run)) = 2
  /\ length (csvfile (state_of (fst run))) = 2.
Proof. vm_compute. repeat split; reflexivity. Qed.

(** What the header code does, for reference: the power-supply columns are
    computed once, when the header is written, from the latest sample at
    that moment: two columns per id of that sample when it carries
    power-supply data, none otherwise; the writer, and so the column set, is
    the same after any run of the export loop.  A row whose ids are among
    those of the header is accepted by the writer, with as many cells as the
    header, the columns of the ids it does not list left empty. *)
Lemma header_frozen_from_latest_sample (m : AsyncPowerMonitor) (now : Q) :
  let st0 := open_export m now in
  let ids := power_supply_ids (fst (get_latest_sample m)) in
  fieldnames (writer st0)
  = base_fieldnames ++ flat_map (fun i => [output_column i; input_column i]) ids
  /\ csvfile st0 = [map Str (fieldnames (writer st0))]
  /\ (samples m = [] -> ids = [])
  /\ (forall older latest,
        samples m = older ++ [latest] ->
        ids = if truthy (power_supplies latest) then supply_ids latest else [])
  /\ (forall args inputs,
        writer (state_of (fst (export_run args inputs st0))) = writer st0)
  /\ (forall elapsed s,
        incl (supply_ids s) ids ->
        _dict_to_list (writer st0) (make_row elapsed s)
        = Ok (record_of (writer st0) (make_row elapsed s))
        /\ length (record_of (writer st0) (make_row elapsed s))
           = length (fieldnames (writer st0))
        /\ (forall i,
              ~ In i (supply_ids s) ->
              cell_for (make_row elapsed s) (output_column i) = Str ""
              /\ cell_for (make_row elapsed s) (input_column i) = Str "")).
Proof.
  cbv zeta. split; [apply header_fieldnames_flat |].
  split; [reflexivity |].
  split; [intros H; cbn; rewrite H; reflexivity |].
  split.
  { intros older latest H. cbn. rewrite H, last_item_snoc.
    destruct older; reflexivity. }
  split; [intros args inputs; apply export_run_writer |].
  intros elapsed s Hincl. split; [| split].
  - apply _dict_to_list_fits. apply make_row_fits, Hincl.
  - unfold record_of. apply length_map.
  - intros i Hi. apply make_row_missing_id, Hi.
Qed.

(* ------------------------------------------------------------------ *)
(** *** C8 *)

(** C8, as stated, fails: the header has no power-supply column, the second
    row holds the columns of PS1 and PS2.  When the duration is reached the
    final flush writes the first row and raises on the second: two rows were
    appended to the buffer, one is in the file (after the header), and
    nothing is written afterwards. *)
Lemma raising_flush_loses_rows :
  let run := export_run timed_args timed_run
               (open_export (monitor_with warm_up) 0%Q) in
  crashed (fst run) = true
  /\ length (rows_appended (snd run)) = 2
  /\ final_flushes (snd run) = 1
  /\ length (csvfile (state_of (fst run))) = 2
  /\ length (buffer (state_of (fst run))) = 2.
Proof. vm_compute. repeat split; reflexivity. Qed.

(** C8, amended: the flush block writes the whole buffer, in arrival order,
    and clears it exactly when the buffer has reached [buffer_size] rows,
    and does nothing below that; when the loop is left, by the duration or
    by an interrupt, the rows still buffered, if any, are written by one
    final flush.  In a run in which no write raises, the file ends as what
    it held at the start followed by the records of every flushed row, every
    row that was in the buffer is among the flushed ones, and, unless the
    interrupt lands inside [writerows], the flushed rows are exactly the
    buffered ones, once each, in arrival order, in batches of exactly
    [buffer_size] rows before the final one when [buffer_size] is
    positive. *)
Theorem exporter_flushes_every_row
    (args : Args) (inputs : list LoopInput) (st st' : Exporter)
    (tr : list ExportEvent) :
  export_run args inputs st = (Break st', tr) ->
  (exists st1 tr1,
      export_loop args inputs st = (Break st1, tr1)
      /\ final_flushes tr1 = 0
      /\ tr = tr1 ++ (if truthy (buffer st1)
                      then [FinalFlush (buffer st1)] else []))
  /\ csvfile st'
     = csvfile st ++ map (record_of (writer st)) (rows_flushed tr)
  /\ (forall r, In r (buffer st ++ rows_appended tr) -> In r (rows_flushed tr))
  /\ (in_writerows inputs = false ->
      rows_flushed tr = buffer st ++ rows_appended tr)
  /\ (in_writerows inputs = false ->
      (0 < buffer_size args)%Z ->
      (Z.of_nat (length (buffer st)) < buffer_size args)%Z ->
      Forall (fun n => Z.of_nat n = buffer_size args) (flush_sizes tr))
  /\ (forall st0,
        ((buffer_size args <= Z.of_nat (length (buffer st0)))%Z ->
         forallb (fits (writer st0)) (buffer st0) = true ->
         flush_block args st0
         = (Continue (set_file_buffer st0
                        (csvfile st0
                         ++ map (record_of (writer st0)) (buffer st0)) []),
            [Flush (buffer st0)]))
        /\ ((Z.of_nat (length (buffer st0)) < buffer_size args)%Z ->
            flush_block args st0 = (Continue st0, []))).
Proof.
  intros Hrun. unfold export_run in Hrun.
  pose proof (export_loop_conserves args inputs st) as L.
  pose proof (export_loop_flush_sizes args inputs) as Z.
  destruct (export_loop args inputs st) as [[st1 | st1 | e st1] tr1] eqn:Hloop;
    try discriminate Hrun.
  destruct L as (Lw & Lff & Lc). cbn [state_of] in *.
  destruct (Lc eq_refl) as (done & partial & Lfl & Lbuf & Lcsv & Lin & Lnone).
  assert (Hrest :
    tr = tr1 ++ (if truthy (buffer st1) then [FinalFlush (buffer st1)] else [])
    /\ csvfile st'
       = csvfile st1
         ++ map (record_of (writer st))
                (if truthy (buffer st1) then buffer st1 else [])).
  { unfold final_flush in Hrun. destruct (truthy (buffer st1)).
    - destruct (writerows (writer st1) (buffer st1) (csvfile st1))
        as [f [e |]] eqn:W; [discriminate Hrun |].
      injection Hrun as <- <-. apply writerows_ok in W. subst f.
      cbn. rewrite Lw. auto.
    - injection Hrun as <- <-. cbn. rewrite !app_nil_r. auto. }
  destruct Hrest as (Htr & Hcsv).
  assert (Hfl : rows_flushed tr
                = done ++ partial
                  ++ (if truthy (buffer st1) then buffer st1 else [])).
  { rewrite Htr, rows_flushed_app, Lfl, <- app_assoc. f_equal. f_equal.
    destruct (truthy (buffer st1)); cbn; rewrite ?app_nil_r; reflexivity. }
  assert (Hap : rows_appended tr = rows_appended tr1).
  { rewrite Htr, rows_appended_app.
    destruct (truthy (buffer st1)); cbn; rewrite app_nil_r; reflexivity. }
  assert (Hbuf : (if truthy (buffer st1) then buffer st1 else []) = buffer st1).
  { destruct (buffer st1); reflexivity. }
  rewrite Hbuf in *.
  split; [exists st1, tr1; auto |].
  split; [rewrite Hcsv, Lcsv, Hfl, Lfl, <- app_assoc, !map_app, <- app_assoc;
          reflexivity |].
  split.
  { intros r Hr. rewrite Hap, <- Lbuf in Hr. rewrite Hfl.
    apply in_app_or in Hr. apply in_or_app. destruct Hr as [Hr | Hr]; auto.
    right. apply in_or_app. right. exact Hr. }
  split.
  { intros Hnone. rewrite Hfl, Hap, <- Lbuf, (Lnone Hnone). reflexivity. }
  split.
  { intros Hnone Hpos Hlen. specialize (Z Hpos Hnone st Hlen).
    rewrite Hloop in Z. cbn [snd] in Z.
    rewrite Htr, flush_sizes_app. apply Forall_app. split; [exact Z |].
    destruct (truthy (buffer st1)); constructor. }
  intros st0. split.
  - apply flush_block_reached.
  - apply flush_block_below.
Qed.

Lemma exporter_flushes_every_row_witness :
  let st := open_export (monitor_with [sample_with_supplies]) 0%Q in
  let run := export_run small_args interrupted_run st in
  rows_flushed (snd run) = buffer st ++ rows_appended (snd run)
  /\ flush_sizes (snd run) = [2]
  /\ length (csvfile (state_of (fst run))) = 4.
Proof.
  cbv zeta.
  assert (E : export_run small_args interrupted_run
                (open_export (monitor_with [sample_with_supplies]) 0%Q)
              = (Break (state_of (fst (export_run small_args interrupted_run
                   (open_export (monitor_with [sample_with_supplies]) 0%Q)))),
                 snd (export_run small_args interrupted_run
                   (open_export (monitor_with [sample_with_supplies]) 0%Q)))).
  { vm_compute. reflexivity. }
  split; [| split; vm_compute; reflexivity].
  apply (proj1 (proj2 (proj2 (proj2
           (exporter_flushes_every_row small_args interrupted_run _ _ _ E))))).
  reflexivity.
Defined.

(** The scenario of the specification: 150 W and the supplies PS1 (output
    80, input 85) and PS2 (output 70, input 75) give, after one export tick,
    a buffer of one row with these cells. *)
Example one_tick_row :
  let st := open_export (monitor_with [sample_with_supplies]) 0%Q in
  let st1 := fst (sample_block default_args
                    (tick_at 0 [sample_with_supplies]) st) in
  exists row,
    buffer st1 = [row]
    /\ dict_get row "total_power_watts" = Some (Num 150)
    /\ dict_get row "ps_PS1_output_watts" = Some (Num 80)
    /\ dict_get row "ps_PS1_input_watts" = Some (Num 85)
    /\ dict_get row "ps_PS2_output_watts" = Some (Num 70)
    /\ dict_get row "ps_PS2_input_watts" = Some (Num 75)
    /\ fits (writer st) row = true.
Proof. eexists. repeat split; reflexivity. Qed.

(* ================================================================== *)
(** * Further properties of the monitor *)




Lemma supplies_calls_app (tr1 tr2 : list Event) :
  supplies_calls (tr1 ++ tr2) = supplies_calls tr1 + supplies_calls tr2.
Proof. unfold supplies_calls. rewrite filter_app, length_app. reflexivity. Qed.


(** X1: [stop()] clears [running] and [thread] and touches nothing else: the
    buffered samples, [last_error] and the thread objects stay; calling it
    again changes nothing; and a poller loop that reads the flag afterwards
    makes no fetch and appends nothing. *)
Theorem stop_spec (p : Process) :
  let p' := snd (stop p) in
  running (monitor p') = false
  /\ thread (monitor p') = None
  /\ samples (monitor p') = samples (monitor p)
  /\ last_error (monitor p') = last_error (monitor p)
  /\ threads p' = threads p
  /\ stop p' = (tt, p')
  /\ (forall envs, _monitor_loop envs (monitor p') = (monitor p', [])).
Proof.
  destruct p as [[sys smp cap run [t |] err itv] ths]; cbn;
    repeat split; intros envs; destruct envs; reflexivity.
Qed.

Lemma start_on_stopped (p : Process) :
  running (monitor p) = false ->
  start p
  = (true,
     {| monitor := set_thread (set_running (monitor p) true)
                              (Some (length (threads p)));
        threads := threads p ++ [{| target := "_monitor_loop";
                                    daemon := true;
                                    started := true |}] |}).
Proof.
  intros H.
  unfold start, bind, gets, on_monitor, on_thread, new_thread, modify, ret.
  rewrite H. cbn. rewrite !update_nth_last. reflexivity.
Qed.

Lemma stop_result (p : Process) :
  stop p
  = (tt, {| monitor := set_thread (set_running (monitor p) false) None;
            threads := threads p |}).
Proof. destruct p as [[sys smp cap run [t |] err itv] ths]; reflexivity. Qed.

(** X2: on a stopped monitor, [start(); stop(); start()] succeeds both
    times and creates two thread objects: [stop()] forgets the handle of the
    first thread, which stays in the process, and the second [start()] runs
    a new one. *)
Theorem restart_creates_second_thread (p : Process) :
  running (monitor p) = false ->
  let p1 := snd (start p) in
  let p3 := snd (start (snd (stop p1))) in
  fst (start p) = true
  /\ fst (start (snd (stop p1))) = true
  /\ length (threads p3) = length (threads p) + 2
  /\ thread (monitor p3) = Some (S (length (threads p)))
  /\ nth_error (threads p3) (length (threads p))
     = Some {| target := "_monitor_loop"; daemon := true; started := true |}
  /\ samples (monitor p3) = samples (monitor p).
Proof.
  intros Hstopped. cbv zeta.
  rewrite (start_on_stopped p Hstopped). cbn [fst snd].
  rewrite stop_result. cbn [fst snd].
  rewrite start_on_stopped by reflexivity.
  cbn [fst snd monitor threads set_thread set_running thread samples].
  rewrite !length_app. cbn [length].
  repeat split.
  - lia.
  - f_equal. lia.
  - rewrite nth_error_app1 by (rewrite length_app; cbn; lia).
    rewrite nth_error_app2 by lia. rewrite Nat.sub_diag. reflexivity.
Qed.

Lemma restart_creates_second_thread_witness :
  length (threads (snd (start (snd (stop (snd (start fresh_process))))))) = 2.
Proof.
  exact (proj1 (proj2 (proj2
           (restart_creates_second_thread fresh_process eq_refl)))).
Defined.

(** X3: a poll that succeeds leaves [last_error] as it is: after a run
    without a failed fetch the field still shows the error recorded
    before. *)
Theorem success_keeps_last_error (envs : list PollEnv) (m : AsyncPowerMonitor) :
  Forall (fun env => is_ok (env_power env) = true
                     /\ is_ok (env_supplies env) = true) envs ->
  last_error (fst (_monitor_loop envs m)) = last_error m
  /\ (running m = true ->
      length (appended (snd (_monitor_loop envs m))) = length envs).
Proof.
  revert m. induction envs as [| env rest IH]; intros m Hall.
  - split; reflexivity.
  - inversion Hall as [| ? ? [Hp Hs] Hrest]; subst.
    cbn [_monitor_loop]. destruct (running m) eqn:Hrun.
    + destruct (env_power env) as [pw | e] eqn:Ep; [| discriminate].
      destruct (monitor_iteration_appends env m pw Ep Hs) as [s H1].
      pose proof (monitor_iteration_frame env m) as F1.
      destruct (monitor_iteration env m) as [m1 ev1].
      destruct H1 as (Hm1 & Hap & _). destruct F1 as (_ & _ & Hr1 & _).
      destruct (IH m1 Hrest) as (IHe & IHn).
      destruct (_monitor_loop rest m1) as [m2 ev2]. cbn [fst snd] in *.
      split.
      * rewrite IHe, Hm1. reflexivity.
      * intros _. rewrite appended_app, length_app, Hap, IHn by congruence.
        reflexivity.
    + split; [reflexivity | discriminate].
Qed.

Lemma success_keeps_last_error_witness :
  last_error (fst (_monitor_loop [good_poll 1; good_poll 2]
                     (fst (monitor_iteration power_fails running_monitor))))
  = Some "HTTPSConnectionPool: Read timed out".
Proof.
  apply (proj1 (success_keeps_last_error [good_poll 1; good_poll 2]
                  (fst (monitor_iteration power_fails running_monitor))
                  ltac:(repeat constructor))).
Defined.




Lemma deque_append_last {A} (C : nat) (d : list A) (x : A) :
  1 <= C -> last_item (deque_append C d x) = Some x.
Proof.
  intros HC. unfold deque_append.
  destruct (Nat.ltb_spec C (length (d ++ [x]))) as [Hover | _].
  - destruct d as [| y d]; [cbn in Hover; lia |].
    cbn [app tl]. apply last_item_snoc.
  - apply last_item_snoc.
Qed.

Lemma deque_extend_nonempty {A} (C : nat) (xs : list A) :
  1 <= C -> forall d, d <> [] -> deque_extend C d xs <> [].
Proof.
  intros HC. unfold deque_extend.
  induction xs as [| x xs IH]; intros d Hd; cbn [fold_left]; [exact Hd |].
  apply IH. intros E. pose proof (deque_append_last C d x HC) as L.
  rewrite E in L. discriminate L.
Qed.

(** X5: with a capacity of at least one, a buffer that holds a sample never
    becomes empty again, whatever the poller does: [get_latest_sample]
    returns a sample from then on.  So once the start-up check of [main] has
    found samples, the latest sample it reads for the header is not
    [None]. *)
Theorem buffer_stays_nonempty (envs : list PollEnv) (m : AsyncPowerMonitor)
                              (now : Q) :
  1 <= max_samples m ->
  samples m <> [] ->
  (exists s, fst (get_latest_sample (fst (_monitor_loop envs m))) = Some s)
  /\ main_startup m (fst (_monitor_loop envs m)) now
     = Ok (open_export (fst (_monitor_loop envs m)) now).
Proof.
  intros HC Hne. split.
  - pose proof (monitor_loop_frame envs m) as F.
    destruct (_monitor_loop envs m) as [m' tr]. cbn [fst].
    destruct F as (Hs & _).
    assert (Hne' : samples m' <> []).
    { rewrite Hs. apply deque_extend_nonempty; assumption. }
    destruct (last_item_some _ Hne') as [s Hlast]. exists s.
    cbn. rewrite Hlast. destruct (samples m'); [contradiction | reflexivity].
  - unfold main_startup. cbn. destruct (samples m); [contradiction | reflexivity].
Qed.

Lemma buffer_stays_nonempty_witness :
  exists s,
    fst (get_latest_sample
           (fst (_monitor_loop [good_poll 1; power_fails]
                   (monitor_with [sample_with_supplies])))) = Some s.
Proof.
  apply (proj1 (buffer_stays_nonempty [good_poll 1; power_fails]
                  (monitor_with [sample_with_supplies]) 2%Q
                  ltac:(vm_compute; lia) ltac:(discriminate))).
Defined.

(** X6: a monitor built with [max_samples = 0] never holds a sample: after
    any run of the poller the buffer is empty, [get_latest_sample] returns
    [None], and the start-up check of [main] raises. *)
Theorem zero_capacity_buffers_nothing
    (envs : list PollEnv) (sys : string) (later : AsyncPowerMonitor) (now : Q) :
  let m := fst (_monitor_loop envs (set_running (__init__ sys 0) true)) in
  samples m = []
  /\ fst (get_latest_sample m) = None
  /\ main_startup m later now
     = Raise "No power samples collected. Check iDRAC connection.".
Proof.
  cbv zeta.
  pose proof (monitor_loop_bounded envs (set_running (__init__ sys 0) true)) as B.
  cbn [samples max_samples set_running __init__ length] in B.
  specialize (B (le_n 0)).
  destruct (samples (fst (_monitor_loop envs (set_running (__init__ sys 0) true))))
    as [| s l] eqn:E; [| cbn in B; lia].
  unfold main_startup. cbn. rewrite E. auto.
Qed.

Lemma full_iteration_fetch (env : PollEnv) (m : AsyncPowerMonitor) (pw : Q) :
  length (samples m) = max_samples m ->
  env_power env = Ok pw ->
  supplies_calls (snd (monitor_iteration env m))
  = (if max_samples m mod 20 =? 0 then 1 else 0)
  /\ length (samples (fst (monitor_iteration env m))) = max_samples m.
Proof.
  intros Hfull Hp. unfold monitor_iteration, try_body.
  rewrite Hp, Hfull.
  assert (Hkeep : forall s,
            length (deque_append (max_samples m) (samples m) s) = max_samples m).
  { intros s. rewrite deque_append_slice, slice_last_length, length_app by lia.
    cbn [length]. lia. }
  destruct (max_samples m mod 20 =? 0).
  - destruct (env_supplies env) as [ps | e]; cbn; auto.
  - cbn. auto.
Qed.

(** X7: once the buffer is full, whether a poll fetches the power supplies
    no longer depends on how many polls were made: in a run of polls whose
    power fetch succeeds, every poll calls [get_power_supplies] when
    [max_samples] is a multiple of 20, and no poll does otherwise; the
    buffer stays full. *)
Theorem full_buffer_fetch_is_constant
    (envs : list PollEnv) (m : AsyncPowerMonitor) :
  running m = true ->
  length (samples m) = max_samples m ->
  Forall (fun env => is_ok (env_power env) = true) envs ->
  supplies_calls (snd (_monitor_loop envs m))
  = (if max_samples m mod 20 =? 0 then length envs else 0)
  /\ length (samples (fst (_monitor_loop envs m))) = max_samples m.
Proof.
  revert m. induction envs as [| env rest IH]; intros m Hrun Hfull Hall.
  - cbn [_monitor_loop fst snd length]. split; [| exact Hfull].
    destruct (max_samples m mod 20 =? 0); reflexivity.
  - inversion Hall as [| ? ? Hp Hrest]; subst.
    cbn [_monitor_loop]. rewrite Hrun.
    destruct (env_power env) as [pw | e] eqn:Ep; [| discriminate].
    pose proof (full_iteration_fetch env m pw Hfull Ep) as [Hc Hl].
    pose proof (monitor_iteration_frame env m) as F1.
    destruct (monitor_iteration env m) as [m1 ev1]. cbn [fst snd] in *.
    destruct F1 as (_ & Hcap & Hr1 & _).
    destruct (IH m1) as [IHc IHl]; try congruence.
    destruct (_monitor_loop rest m1) as [m2 ev2]. cbn [fst snd] in *.
    rewrite supplies_calls_app, Hc, IHc, Hcap. split; [| congruence].
    destruct (max_samples m mod 20 =? 0); reflexivity.
Qed.

Lemma full_buffer_fetch_is_constant_witness :
  supplies_calls
    (snd (_monitor_loop [good_poll 3; good_poll 4; good_poll 5]
            (set_samples (set_running (__init__ "sys" 3) true)
               [sample_with_supplies; sample_without_supplies;
                sample_without_supplies]))) = 0.
Proof.
  exact (proj1 (full_buffer_fetch_is_constant
                  [good_poll 3; good_poll 4; good_poll 5]
                  (set_samples (set_running (__init__ "sys" 3) true)
                     [sample_with_supplies; sample_without_supplies;
                      sample_without_supplies])
                  eq_refl eq_refl ltac:(repeat constructor))).
Defined.

(** X8: with a capacity of at least one, the sample of a successful poll is
    what [get_latest_sample] returns right after it: it carries the power
    fetched, the two clock readings of the poll, and the power supplies
    fetched when the buffer length was a multiple of 20, none otherwise. *)
Theorem successful_poll_is_latest
    (env : PollEnv) (m : AsyncPowerMonitor) (pw : Q) (ps : list PowerSupply) :
  1 <= max_samples m ->
  env_power env = Ok pw ->
  env_supplies env = Ok ps ->
  fst (get_latest_sample (fst (monitor_iteration env m)))
  = Some {| timestamp := env_isoformat env;
            time := env_time env;
            power := pw;
            power_supplies :=
              if length (samples m) mod 20 =? 0 then ps else [] |}.
Proof.
  intros HC Hp Hs. unfold monitor_iteration, try_body. rewrite Hp.
  destruct (length (samples m) mod 20 =? 0); [rewrite Hs |];
    cbn [fst snd app get_latest_sample with_lock gets samples set_samples];
    match goal with
    | |- context [deque_append ?C ?d ?x] =>
        pose proof (deque_append_last C d x HC) as L;
        destruct (deque_append C d x); [discriminate L | exact L]
    end.
Qed.

Lemma successful_poll_is_latest_witness :
  fst (get_latest_sample (fst (monitor_iteration (good_poll 7) running_monitor)))
  = Some {| timestamp := "2024-01-01T00:00:00"; time := 7 # 20;
            power := 150; power_supplies := [PS1; PS2] |}.
Proof.
  exact (successful_poll_is_latest (good_poll 7) running_monitor 150%Q
           [PS1; PS2] ltac:(vm_compute; lia) eq_refl eq_refl).
Defined.

(* ================================================================== *)
(** * Further properties of the read methods *)

Lemma filter_all {A} (p : A -> bool) (l : list A) :
  (forall x, In x l -> p x = true) -> filter p l = l.
Proof.
  induction l as [| x l IH]; intros H; cbn; [reflexivity |].
  rewrite (H x (or_introl eq_refl)), IH; [reflexivity |].
  intros y Hy. apply H. right. exact Hy.
Qed.

Lemma filter_shorter {A} (p : A -> bool) (l : list A) :
  length (filter p l) <= length l.
Proof.
  induction l as [| x l IH]; cbn; [lia |].
  destruct (p x); cbn; lia.
Qed.

(** X9: [get_samples(since_time)] returns exactly the buffered samples whose
    [time] is at least [since_time], so never more than the buffer holds; a
    later [since_time] returns a part of what an earlier one returns; and
    when no buffered sample is older than [since_time] the result is the
    whole buffer, as with [get_samples()]. *)
Theorem get_samples_since (m : AsyncPowerMonitor) (since_time : Q) :
  let r := fst (get_samples (Some since_time) m) in
  (forall s, In s r <-> In s (samples m) /\ (since_time <= time s)%Q)
  /\ length r <= length (samples m)
  /\ (forall later,
        (since_time <= later)%Q ->
        incl (fst (get_samples (Some later) m)) r)
  /\ ((forall s, In s (samples m) -> (since_time <= time s)%Q) ->
      r = fst (get_samples None m)).
Proof.
  cbn. split; [| split; [| split]].
  - intros s. rewrite filter_In, Qle_bool_iff. reflexivity.
  - apply filter_shorter.
  - intros later Hle s. rewrite !filter_In, !Qle_bool_iff.
    intros [Hin Hs]. split; [exact Hin |].
    apply Qle_trans with later; assumption.
  - intros Hall. apply filter_all. intros s Hs.
    apply Qle_bool_iff, Hall, Hs.
Qed.

Lemma get_samples_since_witness :
  fst (get_samples (Some 0%Q) (monitor_with warm_up))
  = fst (get_samples None (monitor_with warm_up))
  /\ incl (fst (get_samples (Some 1%Q) (monitor_with warm_up)))
          (fst (get_samples (Some 0%Q) (monitor_with warm_up))).
Proof.
  split.
  - apply (proj2 (proj2 (proj2 (get_samples_since (monitor_with warm_up) 0%Q)))).
    intros s [<- | [<- | []]]; vm_compute; discriminate.
  - apply (proj1 (proj2 (proj2 (get_samples_since (monitor_with warm_up) 0%Q)))).
    vm_compute. discriminate.
Defined.

(** The estimate in terms of the two ends of the window. *)
Lemma get_sampling_rate_window (m : AsyncPowerMonitor) (oldest newest : Sample) :
  2 <= length (samples m) ->
  hd_error (slice_last (Nat.min 10 (length (samples m))) (samples m))
  = Some oldest ->
  last_item (slice_last (Nat.min 10 (length (samples m))) (samples m))
  = Some newest ->
  fst (get_sampling_rate m)
  = if Qle_bool (time newest - time oldest) 0 then Ok 0%Q
    else Ok (inject_Z (Z.of_nat (Nat.min 10 (length (samples m)) - 1))
             / (time newest - time oldest))%Q.
Proof.
  intros Hlen Ho Hn. unfold get_sampling_rate, with_lock, gets. cbn [fst].
  destruct (Nat.ltb_spec (length (samples m)) 2); [lia |].
  destruct (Nat.ltb_spec (Nat.min 10 (length (samples m))) 2); [lia |].
  rewrite Ho, Hn. reflexivity.
Qed.

(** X10: [get_sampling_rate()] always returns, and never a negative
    rate. *)
Theorem sampling_rate_not_negative (m : AsyncPowerMonitor) :
  exists r, fst (get_sampling_rate m) = Ok r /\ (0 <= r)%Q.
Proof.
  destruct (Nat.lt_ge_cases (length (samples m)) 2) as [Hlt | Hge].
  - exists 0%Q. split; [| apply Qle_refl].
    unfold get_sampling_rate, with_lock, gets. cbn [fst].
    destruct (Nat.ltb_spec (length (samples m)) 2); [reflexivity | lia].
  - destruct (recent_samples_ends (samples m) Hge) as (o & n & Ho & Hn).
    rewrite (get_sampling_rate_window m o n Hge Ho Hn).
    destruct (Qle_bool (time n - time o) 0) eqn:E.
    + exists 0%Q. split; [reflexivity | apply Qle_refl].
    + eexists. split; [reflexivity |].
      apply Qle_bool_false in E.
      apply Qle_shift_div_l; [exact E |].
      rewrite Qmult_0_l. change 0%Q with (inject_Z 0).
      rewrite <- Zle_Qle. lia.
Qed.

(** X11: the estimate looks at the ten most recent samples only: older
    samples in the buffer do not change it. *)
Theorem sampling_rate_uses_last_ten
    (m : AsyncPowerMonitor) (older recent : list Sample) :
  length recent = 10 ->
  samples m = older ++ recent ->
  fst (get_sampling_rate m) = fst (get_sampling_rate (set_samples m recent)).
Proof.
  intros Hten Hm.
  assert (Hs : slice_last 10 (older ++ recent) = recent).
  { unfold slice_last. rewrite length_app, Hten.
    replace (length older + 10 - 10) with (length older) by lia.
    rewrite skipn_app, skipn_all, Nat.sub_diag. reflexivity. }
  assert (Hr : slice_last 10 recent = recent) by (apply slice_last_all; lia).
  unfold get_sampling_rate, with_lock, gets. cbn [fst samples set_samples].
  rewrite Hm, length_app, Hten.
  destruct (Nat.ltb_spec (length older + 10) 2); [lia |].
  replace (Nat.min 10 (length older + 10)) with 10 by lia.
  change (Nat.min 10 10) with 10. change (10 <? 2) with false. cbv iota.
  rewrite Hs, Hr. reflexivity.
Qed.

Lemma sampling_rate_uses_last_ten_witness :
  fst (get_sampling_rate
         (fst (_monitor_loop (map good_poll (seq 0 12)) running_monitor)))
  = fst (get_sampling_rate
           (set_samples
              (fst (_monitor_loop (map good_poll (seq 0 12)) running_monitor))
              (skipn 2 (samples (fst (_monitor_loop (map good_poll (seq 0 12))
                                        running_monitor)))))).
Proof.
  apply (sampling_rate_uses_last_ten
           (fst (_monitor_loop (map good_poll (seq 0 12)) running_monitor))
           (firstn 2 (samples (fst (_monitor_loop (map good_poll (seq 0 12))
                                      running_monitor))))
           (skipn 2 (samples (fst (_monitor_loop (map good_poll (seq 0 12))
                                     running_monitor))))).
  - reflexivity.
  - symmetry. apply firstn_skipn.
Defined.

(* ================================================================== *)
(** * Further properties of the exporter *)

Lemma sample_block_counts (args : Args) (t : Tick) (st : Exporter) :
  let (st1, ev) := sample_block args t st in
  samples_collected st1 = samples_collected st + length (rows_appended ev)
  /\ start_time st1 = start_time st.
Proof.
  unfold sample_block.
  destruct (Qle_bool (next_sample_time st) (current_time t)).
  - destruct (fst (get_latest_sample (mon t))); cbn; split; auto; lia.
  - cbn. split; auto.
Qed.

Lemma flush_block_keeps (args : Args) (st : Exporter) :
  let (o, ev) := flush_block args st in
  samples_collected (state_of o) = samples_collected st
  /\ next_sample_time (state_of o) = next_sample_time st
  /\ start_time (state_of o) = start_time st
  /\ rows_appended ev = [].
Proof.
  unfold flush_block.
  destruct (buffer_size args <=? Z.of_nat (length (buffer st)))%Z.
  - destruct (writerows (writer st) (buffer st) (csvfile st)) as [f [e |]];
      cbn; auto.
  - cbn. auto.
Qed.

Lemma iteration_counts (args : Args) (t : Tick) (st : Exporter) :
  let (o, ev) := iteration args t st in
  samples_collected (state_of o)
  = samples_collected st + length (rows_appended ev).
Proof.
  unfold iteration. destruct (duration_reached args t st); [cbn; lia |].
  pose proof (sample_block_counts args t st) as S1.
  destruct (sample_block args t st) as [st1 ev1].
  pose proof (flush_block_keeps args st1) as F1.
  destruct (flush_block args st1) as [o ev2].
  destruct S1 as (S1 & _). destruct F1 as (F1 & _ & _ & Fa).
  rewrite rows_appended_app, Fa, app_nil_r. congruence.
Qed.

Lemma interrupted_counts (args : Args) (p : InterruptPoint) (t : Tick)
                         (st : Exporter) :
  let (o, ev) := interrupted args p t st in
  samples_collected (state_of o)
  = samples_collected st + length (rows_appended ev).
Proof.
  pose proof (sample_block_counts args t st) as S1.
  unfold interrupted. destruct p as [| | k].
  - cbn. lia.
  - destruct (duration_reached args t st); [cbn; lia |].
    destruct (sample_block args t st) as [st1 ev1]. cbn. apply S1.
  - destruct (duration_reached args t st); [cbn; lia |].
    destruct (sample_block args t st) as [st1 ev1]. destruct S1 as (S1 & _).
    destruct (buffer_size args <=? Z.of_nat (length (buffer st1)))%Z.
    + destruct (writerows (writer st1) (firstn k (buffer st1)) (csvfile st1))
        as [f [e |]]; cbn; rewrite rows_appended_app; cbn;
        rewrite app_nil_r; exact S1.
    + cbn. exact S1.
Qed.

Lemma export_loop_counts (args : Args) (inputs : list LoopInput) :
  forall st,
    let (o, tr) := export_loop args inputs st in
    samples_collected (state_of o)
    = samples_collected st + length (rows_appended tr).
Proof.
  induction inputs as [| [t | p t] rest IH]; intros st; cbn [export_loop].
  - cbn. lia.
  - pose proof (iteration_counts args t st) as I1.
    destruct (iteration args t st) as [[st1 | st1 | e st1] ev1]; try exact I1.
    specialize (IH st1). destruct (export_loop args rest st1) as [o tr2].
    cbn [state_of] in *. rewrite rows_appended_app, length_app. lia.
  - apply interrupted_counts.
Qed.

Lemma final_flush_counts (st : Exporter) :
  let (o, ev) := final_flush st in
  samples_collected (state_of o) = samples_collected st
  /\ rows_appended ev = [].
Proof.
  unfold final_flush. destruct (truthy (buffer st)).
  - destruct (writerows (writer st) (buffer st) (csvfile st)) as [f [e |]];
      cbn; auto.
  - cbn. auto.
Qed.

(** X13: the counter [samples_collected] that the closing summary prints
    counts the rows appended to the write buffer.  After a run that ends by
    the duration test, by an exception, or by a [KeyboardInterrupt] anywhere
    but between [buffer.append(row)] and [samples_collected += 1], it has
    grown by exactly the number of rows appended, whether or not the rows
    reached the file.  A [KeyboardInterrupt] that lands between those two
    lines leaves the last row appended, and handed to the final flush, but
    not counted: the counter is then one short, and this is the only way
    the two numbers differ. *)
Theorem samples_collected_counts_rows
    (args : Args) (inputs : list LoopInput) (st : Exporter) :
  samples_collected (state_of (fst (export_run args inputs st)))
  = samples_collected st
    + length (rows_appended (snd (export_run args inputs st)))
  /\ (forall t st1 tr1,
        export_loop args inputs st = (Continue st1, tr1) ->
        let run := export_run_cut args inputs t st in
        let uncounted :=
          length (rows_appended (snd (interrupted_before_count args t st1))) in
        samples_collected (state_of (fst run)) + uncounted
        = samples_collected st + length (rows_appended (snd run))
        /\ uncounted <= 1
        /\ rows_flushed (snd (final_flush (state_of (fst
               (interrupted_before_count args t st1)))))
           = buffer st1
             ++ rows_appended (snd (interrupted_before_count args t st1))
        /\ (forall latest_sample,
              duration_reached args t st1 = false ->
              Qle_bool (next_sample_time st1) (current_time t) = true ->
              fst (get_latest_sample (mon t)) = Some latest_sample ->
              uncounted = 1)).
Proof.
  split.
  - unfold export_run.
    pose proof (export_loop_counts args inputs st) as L.
    destruct (export_loop args inputs st) as [[st1 | st1 | e st1] tr1];
      cbn [fst snd state_of] in *; try exact L.
    pose proof (final_flush_counts st1) as F.
    destruct (final_flush st1) as [o ev]. destruct F as (Fc & Fa).
    cbn [fst snd]. rewrite rows_appended_app, Fa, app_nil_r. congruence.
  - intros t st1 tr1 Hloop. cbv zeta.
    pose proof (export_loop_counts args inputs st) as L.
    unfold export_run_cut. rewrite Hloop in *. cbn [state_of] in L.
    split; [| split; [| split]].
    + unfold interrupted_before_count.
      destruct (duration_reached args t st1);
        [| destruct (Qle_bool (next_sample_time st1) (current_time t));
           [destruct (fst (get_latest_sample (mon t))) |]];
        cbn [state_of fst snd];
        match goal with
        | |- context [final_flush ?x] =>
            pose proof (final_flush_counts x) as F;
            destruct (final_flush x) as [o ev]; destruct F as (Fc & Fa)
        end;
        cbn [fst snd samples_collected] in *;
        rewrite !rows_appended_app, Fa; cbn [rows_appended flat_map app length];
        rewrite ?app_nil_r, ?length_app; cbn [length]; lia.
    + unfold interrupted_before_count.
      destruct (duration_reached args t st1); [cbn; lia |].
      destruct (Qle_bool (next_sample_time st1) (current_time t)); [| cbn; lia].
      destruct (fst (get_latest_sample (mon t))); cbn; lia.
    + assert (Hflush : forall x, rows_flushed (snd (final_flush x)) = buffer x).
      { intros x. unfold final_flush. destruct (truthy (buffer x)) eqn:E.
        - destruct (writerows _ _ _) as [f [e |]];
            cbn [snd rows_flushed flat_map]; apply app_nil_r.
        - destruct (buffer x); [reflexivity | discriminate E]. }
      rewrite Hflush. unfold interrupted_before_count.
      destruct (duration_reached args t st1); [cbn; symmetry; apply app_nil_r |].
      destruct (Qle_bool (next_sample_time st1) (current_time t));
        [| cbn; symmetry; apply app_nil_r].
      destruct (fst (get_latest_sample (mon t)));
        [reflexivity | cbn; symmetry; apply app_nil_r].
    + intros latest_sample Hd Hq Hs. unfold interrupted_before_count.
      rewrite Hd, Hq, Hs. reflexivity.
Qed.

Lemma samples_collected_counts_rows_witness :
  let st := open_export (monitor_with warm_up) 0%Q in
  let run := export_run_cut small_args [Runs (tick_at 0 warm_up)]
                            (tick_at (1 # 4) warm_up) st in
  samples_collected (state_of (fst run)) + 1
  = samples_collected st + length (rows_appended (snd run)).
Proof.
  cbv zeta.
  exact (proj1 (proj2 (samples_collected_counts_rows
                         small_args [Runs (tick_at 0 warm_up)]
                         (open_export (monitor_with warm_up) 0%Q))
                      (tick_at (1 # 4) warm_up) _ _ eq_refl)).
Defined.

(** X14: with [--duration] 0 or negative, no iteration leaves the loop by
    itself: as long as no interrupt comes, the loop is still running or has
    been left by an exception.  With a positive duration, an iteration whose
    clock is at least [duration] past the start leaves the loop without
    exporting or flushing anything. *)
Theorem duration_bounds_the_run (args : Args) (inputs : list LoopInput)
                                (st : Exporter) :
  ((duration args <= 0)%Z ->
   (forall p t, ~ In (CtrlC p t) inputs) ->
   forall st', fst (export_loop args inputs st) <> Break st')
  /\ (forall t,
        (0 < duration args)%Z ->
        (inject_Z (duration args) <= current_time t - start_time st)%Q ->
        iteration args t st = (Break st, [])).
Proof.
  split.
  - intros Hd. revert st.
    induction inputs as [| [t | p t] rest IH]; intros st Hruns st';
      cbn [export_loop].
    + discriminate.
    + assert (Hnot : duration_reached args t st = false).
      { unfold duration_reached.
        destruct (Z.ltb_spec 0 (duration args)); [lia | reflexivity]. }
      unfold iteration. rewrite Hnot.
      destruct (sample_block args t st) as [st1 ev1].
      unfold flush_block.
      destruct (buffer_size args <=? Z.of_nat (length (buffer st1)))%Z.
      * destruct (writerows (writer st1) (buffer st1) (csvfile st1))
          as [f [e |]]; [discriminate |].
        specialize (IH (set_file_buffer st1 f [])).
        destruct (export_loop args rest (set_file_buffer st1 f [])) as [o tr2].
        cbn [fst] in *. apply IH.
        intros p t' Hin. apply (Hruns p t'). right. exact Hin.
      * specialize (IH st1).
        destruct (export_loop args rest st1) as [o tr2].
        cbn [fst] in *. apply IH.
        intros p t' Hin. apply (Hruns p t'). right. exact Hin.
    + exfalso. apply (Hruns p t). left. reflexivity.
  - intros t Hpos Hpast. unfold iteration, duration_reached.
    destruct (Z.ltb_spec 0 (duration args)); [| lia].
    apply Qle_bool_iff in Hpast. rewrite Hpast. reflexivity.
Qed.

Lemma duration_bounds_the_run_witness :
  iteration timed_args (tick_at 1 later_on)
            (open_export (monitor_with warm_up) 0%Q)
  = (Break (open_export (monitor_with warm_up) 0%Q), [])
  /\ forall st',
       fst (export_loop small_args
              [Runs (tick_at 0 warm_up); Runs (tick_at 100 warm_up)]
              (open_export (monitor_with [sample_with_supplies]) 0%Q))
       <> Break st'.
Proof.
  split.
  - apply (proj2 (duration_bounds_the_run timed_args []
                    (open_export (monitor_with warm_up) 0%Q))).
    + reflexivity.
    + vm_compute. discriminate.
  - apply (proj1 (duration_bounds_the_run small_args
                    [Runs (tick_at 0 warm_up); Runs (tick_at 100 warm_up)]
                    (open_export (monitor_with [sample_with_supplies]) 0%Q))).
    + vm_compute. discriminate.
    + intros p t [H | [H | []]]; discriminate H.
Defined.

(** Before [next_sample_time] nothing is exported: the sample block is
    skipped, and neither the flush block nor an interrupt touches the
    schedule or the counter. *)
Lemma sample_block_early (args : Args) (t : Tick) (st : Exporter) :
  (current_time t < next_sample_time st)%Q ->
  sample_block args t st = (st, []).
Proof.
  intros Hearly. unfold sample_block.
  apply Qle_bool_false in Hearly. rewrite Hearly. reflexivity.
Qed.

Lemma iteration_early (args : Args) (t : Tick) (st : Exporter) :
  (current_time t < next_sample_time st)%Q ->
  let (o, ev) := iteration args t st in
  rows_appended ev = []
  /\ next_sample_time (state_of o) = next_sample_time st
  /\ samples_collected (state_of o) = samples_collected st.
Proof.
  intros Hearly. unfold iteration.
  destruct (duration_reached args t st); [cbn; auto |].
  rewrite (sample_block_early args t st Hearly).
  pose proof (flush_block_keeps args st) as F.
  destruct (flush_block args st) as [o e2]. cbn [app].
  destruct F as (Fc & Fn & _ & Fa). auto.
Qed.

Lemma interrupted_early (args : Args) (p : InterruptPoint) (t : Tick)
                        (st : Exporter) :
  (current_time t < next_sample_time st)%Q ->
  let (o, ev) := interrupted args p t st in
  rows_appended ev = []
  /\ next_sample_time (state_of o) = next_sample_time st
  /\ samples_collected (state_of o) = samples_collected st.
Proof.
  intros Hearly. unfold interrupted. destruct p as [| | k].
  - cbn. auto.
  - destruct (duration_reached args t st); [cbn; auto |].
    rewrite (sample_block_early args t st Hearly). cbn. auto.
  - destruct (duration_reached args t st); [cbn; auto |].
    rewrite (sample_block_early args t st Hearly).
    destruct (buffer_size args <=? Z.of_nat (length (buffer st)))%Z.
    + destruct (writerows (writer st) (firstn k (buffer st)) (csvfile st))
        as [f [e |]]; cbn; auto.
    + cbn. auto.
Qed.

Lemma export_loop_early (args : Args) (inputs : list LoopInput) :
  forall st,
    Forall (fun i => (current_time (tick_of i) < next_sample_time st)%Q)
           inputs ->
    let (o, tr) := export_loop args inputs st in
    rows_appended tr = []
    /\ next_sample_time (state_of o) = next_sample_time st
    /\ samples_collected (state_of o) = samples_collected st.
Proof.
  induction inputs as [| [t | p t] rest IH]; intros st Hall;
    cbn [export_loop].
  - cbn. auto.
  - inversion Hall as [| ? ? Ht Hrest]; subst. cbn [tick_of] in Ht.
    pose proof (iteration_early args t st Ht) as I1.
    destruct (iteration args t st) as [[st1 | st1 | e st1] ev1]; try exact I1.
    cbn [state_of] in I1. destruct I1 as (Ia & In' & Ic).
    assert (Hrest' : Forall (fun i => (current_time (tick_of i)
                                       < next_sample_time st1)%Q) rest).
    { rewrite In'. exact Hrest. }
    specialize (IH st1 Hrest').
    destruct (export_loop args rest st1) as [o tr2].
    destruct IH as (Ja & Jn & Jc).
    rewrite rows_appended_app, Ia, Ja. repeat split; congruence.
  - inversion Hall as [| ? ? Ht Hrest]; subst. cbn [tick_of] in Ht.
    apply interrupted_early, Ht.
Qed.

(** X15: while the clock reads less than the stored [next_sample_time], the
    export loop exports nothing: over any number of iterations, complete or
    interrupted, whose clock reading is below [next_sample_time], and the
    final flush after them, no row is appended, and [next_sample_time] and
    [samples_collected] stay as they are. *)
Theorem no_row_before_next_sample_time
    (args : Args) (inputs : list LoopInput) (st : Exporter) :
  Forall (fun i => (current_time (tick_of i) < next_sample_time st)%Q)
         inputs ->
  let run := export_run args inputs st in
  rows_appended (snd run) = []
  /\ next_sample_time (state_of (fst run)) = next_sample_time st
  /\ samples_collected (state_of (fst run)) = samples_collected st.
Proof.
  intros Hall. cbv zeta. unfold export_run.
  pose proof (export_loop_early args inputs st Hall) as L.
  destruct (export_loop args inputs st) as [[st1 | st1 | e st1] tr1];
    cbn [fst snd state_of] in *; try exact L.
  destruct L as (La & Ln & Lc).
  unfold final_flush. destruct (truthy (buffer st1)).
  - destruct (writerows (writer st1) (buffer st1) (csvfile st1)) as [f [e |]];
      cbn [fst snd state_of set_file_buffer next_sample_time
           samples_collected];
      rewrite rows_appended_app, La; cbn; auto.
  - cbn [fst snd state_of]. rewrite app_nil_r. auto.
Qed.

Lemma no_row_before_next_sample_time_witness :
  let st1 := state_of (fst (iteration small_args (tick_at 0 warm_up)
                              (open_export (monitor_with warm_up) 0%Q))) in
  rows_appended
    (snd (export_run small_args
            [Runs (tick_at (1 # 10) later_on);
             CtrlC AfterSample (tick_at (1 # 5) later_on)] st1))
  = [].
Proof.
  cbv zeta.
  apply (no_row_before_next_sample_time small_args
           [Runs (tick_at (1 # 10) later_on);
            CtrlC AfterSample (tick_at (1 # 5) later_on)]).
  repeat constructor.
Defined.

Lemma export_loop_buffer_bound (args : Args) (inputs : list LoopInput) :
  (0 < buffer_size args)%Z ->
  forall st,
    (Z.of_nat (length (buffer st)) < buffer_size args)%Z ->
    let (o, tr) := export_loop args inputs st in
    (Z.of_nat (length (buffer (state_of o))) <= buffer_size args)%Z
    /\ (forall st', o = Continue st' ->
                    (Z.of_nat (length (buffer st')) < buffer_size args)%Z).
Proof.
  intros Hpos.
  assert (Hsample : forall t st,
    (Z.of_nat (length (buffer st)) < buffer_size args)%Z ->
    (Z.of_nat (length (buffer (fst (sample_block args t st))))
     <= buffer_size args)%Z).
  { intros t st Hlen. pose proof (sample_block_frame args t st) as S1.
    destruct (sample_block args t st) as [st1 ev1]. cbn [fst].
    destruct S1 as (_ & _ & Sb & _ & _ & _ & Sone).
    rewrite Sb, length_app. lia. }
  induction inputs as [| [t | p t] rest IH]; intros st Hlen; cbn [export_loop].
  - cbn. split; [lia |]. intros st' H. injection H as <-. exact Hlen.
  - unfold iteration. destruct (duration_reached args t st).
    + cbn. split; [lia | discriminate].
    + specialize (Hsample t st Hlen).
      destruct (sample_block args t st) as [st1 ev1]. cbn [fst] in Hsample.
      unfold flush_block.
      destruct (Z.leb_spec (buffer_size args) (Z.of_nat (length (buffer st1)))).
      * destruct (writerows (writer st1) (buffer st1) (csvfile st1))
          as [f [e |]].
        -- cbn. split; [lia | discriminate].
        -- specialize (IH (set_file_buffer st1 f [])).
           destruct (export_loop args rest (set_file_buffer st1 f []))
             as [o tr2].
           apply IH. cbn. lia.
      * specialize (IH st1).
        destruct (export_loop args rest st1) as [o tr2]. apply IH. lia.
  - unfold interrupted. destruct p as [| | k].
    + cbn. split; [lia | discriminate].
    + destruct (duration_reached args t st);
        [cbn; split; [lia | discriminate] |].
      specialize (Hsample t st Hlen).
      destruct (sample_block args t st) as [st1 ev1]. cbn in *.
      split; [lia | discriminate].
    + destruct (duration_reached args t st);
        [cbn; split; [lia | discriminate] |].
      specialize (Hsample t st Hlen).
      destruct (sample_block args t st) as [st1 ev1]. cbn [fst] in Hsample.
      destruct (buffer_size args <=? Z.of_nat (length (buffer st1)))%Z.
      * destruct (writerows (writer st1) (firstn k (buffer st1)) (csvfile st1))
          as [f [e |]]; cbn; (split; [lia | discriminate]).
      * cbn. split; [lia | discriminate].
Qed.

(** X16: with a positive flush threshold, the write buffer never holds more
    than [buffer_size] rows: starting below the threshold, it holds at most
    that many when the loop is left or raises, and fewer at the start of
    every iteration. *)
Theorem write_buffer_is_bounded (args : Args) (inputs : list LoopInput)
                                (st : Exporter) :
  (0 < buffer_size args)%Z ->
  (Z.of_nat (length (buffer st)) < buffer_size args)%Z ->
  (Z.of_nat (length (buffer (state_of (fst (export_loop args inputs st)))))
   <= buffer_size args)%Z
  /\ (forall st',
        fst (export_loop args inputs st) = Continue st' ->
        (Z.of_nat (length (buffer st')) < buffer_size args)%Z).
Proof.
  intros Hpos Hlen.
  pose proof (export_loop_buffer_bound args inputs Hpos st Hlen) as B.
  destruct (export_loop args inputs st) as [o tr]. exact B.
Qed.

Lemma write_buffer_is_bounded_witness :
  (Z.of_nat (length (buffer (state_of (fst (export_loop small_args
       interrupted_run (open_export (monitor_with [sample_with_supplies]) 0%Q))))))
   <= 2)%Z.
Proof.
  apply (proj1 (write_buffer_is_bounded small_args interrupted_run
                  (open_export (monitor_with [sample_with_supplies]) 0%Q)
                  eq_refl eq_refl)).
Defined.

(** X17: with [--buffer-size] 0 or negative the flush test holds at every
    iteration: an iteration that goes on has written everything that was
    buffered, the row it appended included, and leaves the buffer empty. *)
Theorem nonpositive_threshold_flushes_always
    (args : Args) (t : Tick) (st st1 : Exporter) (ev : list ExportEvent) :
  (buffer_size args <= 0)%Z ->
  iteration args t st = (Continue st1, ev) ->
  buffer st1 = []
  /\ rows_flushed ev = buffer st ++ rows_appended ev
  /\ csvfile st1
     = csvfile st
       ++ map (record_of (writer st)) (buffer st ++ rows_appended ev).
Proof.
  intros HB Hit.
  pose proof (iteration_conserves args t st) as I1. rewrite Hit in I1.
  destruct I1 as (_ & _ & Ic). destruct (Ic eq_refl) as (Icsv & Ibuf).
  cbn [state_of] in *.
  assert (Hempty : buffer st1 = []).
  { unfold iteration in Hit.
    destruct (duration_reached args t st); [discriminate |].
    destruct (sample_block args t st) as [s1 e1].
    unfold flush_block in Hit.
    destruct (Z.leb_spec (buffer_size args) (Z.of_nat (length (buffer s1))));
      [| lia].
    destruct (writerows (writer s1) (buffer s1) (csvfile s1)) as [f [e |]];
      [discriminate |].
    injection Hit as <- _. reflexivity. }
  rewrite Hempty, app_nil_r in Ibuf.
  split; [exact Hempty |]. split; [exact Ibuf |].
  rewrite Icsv, Ibuf. reflexivity.
Qed.

Lemma nonpositive_threshold_flushes_always_witness :
  buffer (state_of (fst (iteration
            {| interval := 1 # 10; duration := 0; buffer_size := 0 |}
            (tick_at 0 [sample_with_supplies])
            (open_export (monitor_with [sample_with_supplies]) 0%Q)))) = [].
Proof.
  refine (proj1 (nonpositive_threshold_flushes_always
                   {| interval := 1 # 10; duration := 0; buffer_size := 0 |}
                   (tick_at 0 [sample_with_supplies])
                   (open_export (monitor_with [sample_with_supplies]) 0%Q)
                   _ (snd (iteration
                             {| interval := 1 # 10; duration := 0;
                                buffer_size := 0 |}
                             (tick_at 0 [sample_with_supplies])
                             (open_export (monitor_with [sample_with_supplies])
                                          0%Q)))
                   _ _)).
  - vm_compute. discriminate.
  - vm_compute. reflexivity.
Defined.

(** X18: the argument of the loop's [time.sleep] is never negative and
    never more than 10 ms; it is 0 when the schedule is reached or passed,
    10 ms when the next export is at least 10 ms away, and the time left
    otherwise. *)
Theorem idle_wait_bounds (next_sample_time now : Q) :
  (0 <= idle_wait next_sample_time now)%Q
  /\ (idle_wait next_sample_time now <= 1 # 100)%Q
  /\ ((next_sample_time <= now)%Q -> idle_wait next_sample_time now = 0%Q)
  /\ ((now + (1 # 100) <= next_sample_time)%Q ->
      idle_wait next_sample_time now = (1 # 100)%Q)
  /\ ((now < next_sample_time)%Q ->
      (next_sample_time < now + (1 # 100))%Q ->
      idle_wait next_sample_time now = (next_sample_time - now)%Q).
Proof.
  unfold idle_wait, py_min, py_max.
  destruct (Qle_bool (next_sample_time - now) 0) eqn:E0.
  - apply Qle_bool_iff in E0.
    change (Qle_bool (1 # 100) 0) with false. cbv iota.
    repeat split; try discriminate; intros; exfalso; lra.
  - apply Qle_bool_false in E0.
    destruct (Qle_bool (1 # 100) (next_sample_time - now)) eqn:E1.
    + apply Qle_bool_iff in E1.
      repeat split; try discriminate; intros; exfalso; lra.
    + apply Qle_bool_false in E1.
      repeat split; try lra; intros; exfalso; lra.
Qed.

Lemma idle_wait_bounds_witness :
  idle_wait (1 # 2) 1 = 0%Q
  /\ idle_wait 1 (1 # 2) = (1 # 100)%Q.
Proof.
  split.
  - apply (proj1 (proj2 (proj2 (idle_wait_bounds (1 # 2) 1)))).
    vm_compute. discriminate.
  - apply (proj1 (proj2 (proj2 (proj2 (idle_wait_bounds 1 (1 # 2)))))).
    vm_compute. discriminate.
Defined.

(* ================================================================== *)
(** * Further properties of rows and header *)

Lemma dict_set_fresh (r : Row) (k : string) (v : Cell) :
  ~ In k (keys r) -> dict_set r k v = r ++ [(k, v)].
Proof.
  induction r as [| [k' v'] r IH]; cbn; intros H; [reflexivity |].
  destruct (String.eqb_spec k' k) as [-> | _].
  - exfalso. apply H. left. reflexivity.
  - rewrite IH; [reflexivity |]. intros Hin. apply H. right. exact Hin.
Qed.

Lemma keys_dict_set_present (r : Row) (k : string) (v : Cell) :
  In k (keys r) -> keys (dict_set r k v) = keys r.
Proof.
  induction r as [| [k' v'] r IH]; cbn; intros H; [contradiction |].
  destruct (String.eqb_spec k' k) as [-> | Hne]; [reflexivity |].
  cbn. f_equal. apply IH. destruct H as [H | H]; [contradiction | exact H].
Qed.

Lemma dict_get_set_other (r : Row) (k k' : string) (v : Cell) :
  k' <> k -> dict_get (dict_set r k v) k' = dict_get r k'.
Proof.
  intros Hne. induction r as [| [k0 v0] r IH]; cbn.
  - destruct (String.eqb_spec k k'); [congruence | reflexivity].
  - destruct (String.eqb_spec k0 k) as [-> | H0]; cbn.
    + destruct (String.eqb_spec k k'); [congruence | reflexivity].
    + destruct (String.eqb_spec k0 k'); [reflexivity | exact IH].
Qed.

(** What [row[key] = value] keeps, for a key that is not a base column. *)
Lemma dict_set_keeps_base (r : Row) (k : string) (v : Cell) :
  ~ In k base_fieldnames ->
  (exists rest, keys r = base_fieldnames ++ rest) ->
  NoDup (keys r) ->
  (exists rest, keys (dict_set r k v) = base_fieldnames ++ rest)
  /\ NoDup (keys (dict_set r k v))
  /\ (forall b, In b base_fieldnames ->
                dict_get (dict_set r k v) b = dict_get r b).
Proof.
  intros Hk [rest Hkeys] Hnd.
  split; [| split].
  - destruct (in_dec string_dec k (keys r)) as [Hin | Hout].
    + exists rest. rewrite keys_dict_set_present by exact Hin. exact Hkeys.
    + exists (rest ++ [k]). rewrite dict_set_fresh by exact Hout.
      unfold keys in *. rewrite map_app, Hkeys, <- app_assoc. reflexivity.
  - destruct (in_dec string_dec k (keys r)) as [Hin | Hout].
    + rewrite keys_dict_set_present by exact Hin. exact Hnd.
    + rewrite dict_set_fresh by exact Hout.
      unfold keys in *. rewrite map_app. cbn.
      apply NoDup_app; [exact Hnd | repeat constructor; intros [] | ].
      intros x Hx [<- | []]. exact (Hout Hx).
  - intros b Hb. apply dict_get_set_other. intros ->. exact (Hk Hb).
Qed.

(** X19: whatever power supplies a sample lists, its row starts with the
    three base columns, holding the sample's timestamp, the rounded elapsed
    time and the sample's power, and holds no column twice: power supplies
    with the same id share one pair of columns. *)
Theorem make_row_base_columns (elapsed_seconds : Q) (s : Sample) :
  let row := make_row elapsed_seconds s in
  (exists rest, keys row = base_fieldnames ++ rest)
  /\ NoDup (keys row)
  /\ dict_get row "timestamp" = Some (Str (timestamp s))
  /\ dict_get row "elapsed_seconds" = Some (Num (round6 elapsed_seconds))
  /\ dict_get row "total_power_watts" = Some (Num (power s)).
Proof.
  cbv zeta. unfold make_row.
  set (row0 := [("timestamp", Str (timestamp s));
                ("elapsed_seconds", Num (round6 elapsed_seconds));
                ("total_power_watts", Num (power s))]).
  assert (H0 : (exists rest, keys row0 = base_fieldnames ++ rest)
               /\ NoDup (keys row0)
               /\ forall b, In b base_fieldnames ->
                            dict_get row0 b = dict_get row0 b).
  { split; [exists []; reflexivity |]. split; [| reflexivity].
    cbn. repeat constructor; cbn; intuition discriminate. }
  assert (Hloop : forall l r,
    (exists rest, keys r = base_fieldnames ++ rest) ->
    NoDup (keys r) ->
    let r' := fold_left
                (fun row ps =>
                   dict_set (dict_set row (output_column (id ps))
                                          (cell_of (output_watts ps)))
                            (input_column (id ps)) (cell_of (input_watts ps)))
                l r in
    (exists rest, keys r' = base_fieldnames ++ rest)
    /\ NoDup (keys r')
    /\ forall b, In b base_fieldnames -> dict_get r' b = dict_get r b).
  { induction l as [| ps l IH]; intros r Hb Hnd; cbn [fold_left].
    - auto.
    - destruct (dict_set_keeps_base r (output_column (id ps))
                  (cell_of (output_watts ps))
                  (output_column_not_base _) Hb Hnd) as (Hb1 & Hnd1 & Hg1).
      destruct (dict_set_keeps_base _ (input_column (id ps))
                  (cell_of (input_watts ps))
                  (input_column_not_base _) Hb1 Hnd1) as (Hb2 & Hnd2 & Hg2).
      destruct (IH _ Hb2 Hnd2) as (Hb3 & Hnd3 & Hg3).
      split; [exact Hb3 |]. split; [exact Hnd3 |].
      intros b Hin. rewrite Hg3, Hg2, Hg1 by exact Hin. reflexivity. }
  destruct H0 as (Hb0 & Hnd0 & _).
  destruct (truthy (power_supplies s)).
  - destruct (Hloop (power_supplies s) row0 Hb0 Hnd0) as (Hb & Hnd & Hg).
    split; [exact Hb |]. split; [exact Hnd |].
    rewrite !Hg by (cbn; auto). repeat split; reflexivity.
  - split; [exact Hb0 |]. split; [exact Hnd0 |]. repeat split; reflexivity.
Qed.

Lemma supplies_loop_fresh (l : list PowerSupply) :
  forall r,
    NoDup (map id l) ->
    (forall ps, In ps l ->
                ~ In (output_column (id ps)) (keys r)
                /\ ~ In (input_column (id ps)) (keys r)) ->
    fold_left (fun row ps =>
                 dict_set (dict_set row (output_column (id ps))
                                        (cell_of (output_watts ps)))
                          (input_column (id ps)) (cell_of (input_watts ps)))
              l r
    = r ++ flat_map (fun ps => [(output_column (id ps), cell_of (output_watts ps));
                                (input_column (id ps), cell_of (input_watts ps))])
                    l.
Proof.
  induction l as [| ps l IH]; intros r Hnd Hfresh; cbn [fold_left flat_map map].
  - rewrite app_nil_r. reflexivity.
  - inversion Hnd as [| ? ? Hnotin Hnd']; subst.
    destruct (Hfresh ps (or_introl eq_refl)) as [Ho Hi].
    rewrite (dict_set_fresh r _ _ Ho).
    rewrite dict_set_fresh.
    2:{ unfold keys. rewrite map_app, in_app_iff. cbn.
        intros [H | [H | []]]; [exact (Hi H) |].
        exact (output_column_not_input _ _ H). }
    rewrite IH; [rewrite <- !app_assoc; reflexivity | exact Hnd' |].
    intros ps' Hin'.
    assert (Hne : id ps' <> id ps).
    { intros E. apply Hnotin. rewrite <- E. apply in_map. exact Hin'. }
    destruct (Hfresh ps' (or_intror Hin')) as [Ho' Hi'].
    unfold keys in *. rewrite !map_app, !in_app_iff. cbn. split.
    + intros [[H | [H | []]] | [H | []]].
      * exact (Ho' H).
      * apply Hne. symmetry. exact (output_column_inj _ _ H).
      * symmetry in H. exact (output_column_not_input _ _ H).
    + intros [[H | [H | []]] | [H | []]].
      * exact (Hi' H).
      * exact (output_column_not_input _ _ H).
      * apply Hne. symmetry. exact (input_column_inj _ _ H).
Qed.

Lemma cell_for_keys (r : Row) :
  NoDup (keys r) -> map (cell_for r) (keys r) = map snd r.
Proof.
  induction r as [| [k v] r IH]; intros Hnd; [reflexivity |].
  inversion Hnd as [| ? ? Hnotin Hnd']; subst.
  cbn [keys map fst snd]. f_equal.
  - unfold cell_for. cbn. rewrite String.eqb_refl. reflexivity.
  - rewrite <- (IH Hnd'). apply map_ext_in. intros k' Hk'.
    unfold cell_for. cbn.
    destruct (String.eqb_spec k k') as [-> | _]; [contradiction | reflexivity].
Qed.

Lemma keys_supply_pairs (l : list PowerSupply) :
  map fst (flat_map (fun ps =>
                       [(output_column (id ps), cell_of (output_watts ps));
                        (input_column (id ps), cell_of (input_watts ps))]) l)
  = flat_map (fun i => [output_column i; input_column i]) (map id l).
Proof.
  induction l as [| ps l IH]; [reflexivity |].
  cbn [flat_map map app fst]. f_equal. f_equal. exact IH.
Qed.

(** X20: for a sample whose power supplies have distinct ids, the row is the
    three base cells followed by the output and input watts of each supply
    in the sample's order; its columns are exactly the header computed from
    that sample, in the same order, so the writer accepts the row and writes
    the row's values in that order, each as the sample has it: no column of
    the header is missing from the row, and a supply whose watts are [None]
    gives a [None] cell, which the csv module writes as an empty field. *)
Theorem row_matches_own_header (elapsed_seconds : Q) (s : Sample) :
  NoDup (supply_ids s) ->
  let row := make_row elapsed_seconds s in
  let w := {| fieldnames := header_fieldnames (supply_ids s) |} in
  row = [("timestamp", Str (timestamp s));
         ("elapsed_seconds", Num (round6 elapsed_seconds));
         ("total_power_watts", Num (power s))]
        ++ flat_map (fun ps =>
                       [(output_column (id ps), cell_of (output_watts ps));
                        (input_column (id ps), cell_of (input_watts ps))])
                    (power_supplies s)
  /\ keys row = fieldnames w
  /\ _dict_to_list w row = Ok (map snd row).
Proof.
  intros Hnd. cbv zeta.
  assert (Hrow : make_row elapsed_seconds s
    = [("timestamp", Str (timestamp s));
       ("elapsed_seconds", Num (round6 elapsed_seconds));
       ("total_power_watts", Num (power s))]
      ++ flat_map (fun ps =>
                     [(output_column (id ps), cell_of (output_watts ps));
                      (input_column (id ps), cell_of (input_watts ps))])
                  (power_supplies s)).
  { unfold make_row. destruct (power_supplies s) as [| ps l] eqn:E.
    - reflexivity.
    - cbn [truthy]. apply supplies_loop_fresh.
      + unfold supply_ids in Hnd. rewrite E in Hnd. exact Hnd.
      + intros ps' _. split.
        * exact (output_column_not_base (id ps')).
        * exact (input_column_not_base (id ps')). }
  assert (Hkeys : keys (make_row elapsed_seconds s)
                  = header_fieldnames (supply_ids s)).
  { rewrite Hrow, header_fieldnames_flat. unfold keys, supply_ids.
    rewrite map_app. f_equal. apply keys_supply_pairs. }
  split; [exact Hrow |]. split; [exact Hkeys |].
  rewrite _dict_to_list_fits.
  - unfold record_of. cbn [fieldnames]. rewrite <- Hkeys.
    rewrite cell_for_keys; [reflexivity |].
    apply (make_row_base_columns elapsed_seconds s).
  - apply make_row_fits. apply incl_refl.
Qed.

Lemma row_matches_own_header_witness :
  keys (make_row 0 sample_with_supplies)
  = ["timestamp"; "elapsed_seconds"; "total_power_watts";
     "ps_PS1_output_watts"; "ps_PS1_input_watts";
     "ps_PS2_output_watts"; "ps_PS2_input_watts"].
Proof.
  refine (proj1 (proj2 (row_matches_own_header 0 sample_with_supplies _))).
  repeat constructor; cbn; intuition discriminate.
Defined.

(* ================================================================== *)
(** * The status line *)

Lemma status_blocks_safe (start_time : Q) (samples_collected : nat)
                         (clocks : list Q) :
  forall last,
    (start_time <= last)%Q ->
    exists last',
      status_blocks start_time last clocks samples_collected = Ok last'
      /\ (start_time <= last')%Q.
Proof.
  induction clocks as [| current rest IH]; intros last Hlast;
    cbn [status_blocks].
  - exists last. split; [reflexivity | exact Hlast].
  - unfold status_block.
    destruct (Qle_bool 5 (current - last)) eqn:E5.
    + apply Qle_bool_iff in E5.
      destruct (Qeq_bool (current - start_time) 0) eqn:E0.
      * apply Qeq_bool_eq in E0. exfalso. lra.
      * apply IH. lra.
    + apply IH. exact Hlast.
Qed.

(** X21: the rate printed by the status line, [samples_collected] divided by
    the time since the start, never divides by zero, whatever the clock
    readings are (also when the clock steps back): a status line is due only
    five seconds after the previous one, and the first one five seconds
    after the start. *)
Theorem status_line_never_divides_by_zero
    (start_time : Q) (clocks : list Q) (samples_collected : nat) :
  exists last,
    status_blocks start_time start_time clocks samples_collected = Ok last
    /\ (start_time <= last)%Q.
Proof. apply status_blocks_safe. apply Qle_refl. Qed.

(* ================================================================== *)
(** * Properties of the Redfish client *)

Lemma lookup_store_same {A} (d : list (string * A)) (key : string) (value : A) :
  Redfish.lookup (Redfish.store d key value) key = Some value.
Proof.
  induction d as [| [k v] d IH]; cbn.
  - rewrite String.eqb_refl. reflexivity.
  - destruct (String.eqb_spec k key) as [-> | Hne]; cbn.
    + rewrite String.eqb_refl. reflexivity.
    + destruct (String.eqb_spec k key); [contradiction | exact IH].
Qed.

(** A request is logged, whatever comes back, and touches nothing else. *)
Lemma _request_frame (srv : Redfish.Server) (path : string)
                     (c : Redfish.RedfishClient) :
  let c1 := snd (Redfish._request srv path c) in
  Redfish.base_url c1 = Redfish.base_url c
  /\ Redfish._power_uri_cache c1 = Redfish._power_uri_cache c
  /\ Redfish.requests c1
     = Redfish.requests c ++ [(Redfish.base_url c ++ path)%string].
Proof.
  unfold Redfish._request.
  destruct (srv (length (Redfish.requests c))
                (Redfish.base_url c ++ path)%string) as [resp | e];
    [| cbn; auto].
  destruct ((400 <=? Redfish.status_code resp)
            && (Redfish.status_code resp <? 600))%Z; [cbn; auto |].
  destruct (String.eqb (Redfish.content resp) ""); cbn; auto.
Qed.

(** X22: once [get_power_uri] has returned a URI for a system, every later
    call for that system returns the same URI from the cache, whatever the
    server would answer, without a request and without changing the
    client. *)
Theorem power_uri_is_cached
    (srv : Redfish.Server) (system_id uri : string)
    (c c1 : Redfish.RedfishClient) :
  Redfish.get_power_uri srv system_id c = (Ok uri, c1) ->
  forall srv', Redfish.get_power_uri srv' system_id c1 = (Ok uri, c1).
Proof.
  unfold Redfish.get_power_uri. intros H srv'.
  destruct (Redfish.lookup (Redfish._power_uri_cache c) system_id)
    as [u |] eqn:Hc.
  - injection H as <- <-. rewrite Hc. reflexivity.
  - destruct (Redfish._request srv system_id c) as [r c0].
    destruct (Redfish.and_then r
                (Redfish.power_uri_of (Redfish.base_url c) system_id))
      as [p | e]; [| discriminate].
    injection H as <- <-. cbn [Redfish._power_uri_cache].
    rewrite lookup_store_same. reflexivity.
Qed.

(** X23: a call of [get_power_uri] that raises has made exactly one
    request, to the system resource, and has cached nothing: the next call
    for that system asks the server again. *)
Theorem failed_power_uri_caches_nothing
    (srv : Redfish.Server) (system_id e : string)
    (c c1 : Redfish.RedfishClient) :
  Redfish.get_power_uri srv system_id c = (Raise e, c1) ->
  Redfish._power_uri_cache c1 = Redfish._power_uri_cache c
  /\ Redfish.lookup (Redfish._power_uri_cache c1) system_id = None
  /\ Redfish.requests c1
     = Redfish.requests c ++ [(Redfish.base_url c ++ system_id)%string].
Proof.
  unfold Redfish.get_power_uri. intros H.
  destruct (Redfish.lookup (Redfish._power_uri_cache c) system_id)
    as [u |] eqn:Hc; [discriminate |].
  pose proof (_request_frame srv system_id c) as F.
  destruct (Redfish._request srv system_id c) as [r c0]. cbn [snd] in F.
  destruct (Redfish.and_then r
              (Redfish.power_uri_of (Redfish.base_url c) system_id))
    as [p | e0]; [discriminate |].
  injection H as _ <-. destruct F as (_ & Fc & Fr).
  rewrite Fc. auto.
Qed.

Lemma power_uri_is_cached_witness :
  Redfish.get_power_uri serves_nothing "/Systems/System.Embedded.1"
    (snd (Redfish.get_power_uri (serves system_resource)
            "/Systems/System.Embedded.1" idrac))
  = (Ok "/redfish/v1/Chassis/System.Embedded.1/Power",
     snd (Redfish.get_power_uri (serves system_resource)
            "/Systems/System.Embedded.1" idrac)).
Proof.
  apply (power_uri_is_cached (serves system_resource)
           "/Systems/System.Embedded.1"
           "/redfish/v1/Chassis/System.Embedded.1/Power" idrac).
  vm_compute. reflexivity.
Defined.

Lemma failed_power_uri_caches_nothing_witness :
  Redfish.requests
    (snd (Redfish.get_power_uri serves_nothing "/Systems/System.Embedded.1"
            idrac))
  = ["https://idrac/redfish/v1/Systems/System.Embedded.1"].
Proof.
  refine (proj2 (proj2 (failed_power_uri_caches_nothing serves_nothing
                          "/Systems/System.Embedded.1" "AttributeError"
                          idrac _ _))).
  vm_compute. reflexivity.
Defined.

Lemma prefix_append (a b : string) : String.prefix a (a ++ b) = true.
Proof.
  induction a as [| c a IH]; cbn.
  - destruct b; reflexivity.
  - destruct (Ascii.ascii_dec c c) as [_ | Hne]; [exact IH | contradiction].
Qed.

Lemma drop_occurrences_skip (old a : string) :
  forall rest,
    Redfish.drop_occurrences old (String.length a) (a ++ rest)
    = Redfish.drop_occurrences old 0 rest.
Proof.
  induction a as [| c a IH]; intros rest; cbn.
  - destruct rest; reflexivity.
  - apply IH.
Qed.

Lemma drop_occurrences_absent (old : string) :
  old <> "" ->
  forall s, Redfish.contains old s = false ->
            Redfish.drop_occurrences old 0 s = s.
Proof.
  intros Hold. induction s as [| c s IH]; intros H; [reflexivity |].
  cbn [Redfish.contains] in H. cbn [Redfish.drop_occurrences].
  destruct (String.prefix old (String c s)); [discriminate |].
  rewrite IH by exact H. reflexivity.
Qed.

(** X24: [get_power_uri] turns the [@odata.id] of the system's [Power]
    entry, a non-empty string, into the power URI by dropping every
    occurrence of the client's base URL: an id that does not contain the
    base URL (a path such as [/redfish/v1/...]) is returned as it is, and
    an id that starts with the base URL loses that prefix. *)
Theorem power_uri_drops_base_url
    (base system_id uri : string) (d pw : list (string * Redfish.json)) :
  base <> "" ->
  uri <> "" ->
  Redfish.lookup d "Power" = Some (Redfish.JDict pw) ->
  Redfish.lookup pw "@odata.id" = Some (Redfish.JStr uri) ->
  Redfish.power_uri_of base system_id (Redfish.JDict d)
  = Ok (Redfish.str_remove base uri)
  /\ (Redfish.contains base uri = false -> Redfish.str_remove base uri = uri)
  /\ (forall path,
        uri = (base ++ path)%string ->
        Redfish.contains base path = false ->
        Redfish.str_remove base uri = path).
Proof.
  intros Hbase Huri Hp Hid.
  assert (Hb : String.eqb base "" = false)
    by (destruct (String.eqb_spec base ""); [contradiction | reflexivity]).
  assert (Hu : String.eqb uri "" = false)
    by (destruct (String.eqb_spec uri ""); [contradiction | reflexivity]).
  split; [| split].
  - unfold Redfish.power_uri_of. cbn. rewrite Hp. cbn. rewrite Hid. cbn.
    rewrite Hu. reflexivity.
  - intros Hno. unfold Redfish.str_remove. rewrite Hb.
    apply drop_occurrences_absent; assumption.
  - intros path -> Hno. unfold Redfish.str_remove. rewrite Hb.
    destruct base as [| b base]; [contradiction |].
    change (String b base ++ path)%string with (String b (base ++ path)%string).
    cbn [Redfish.drop_occurrences].
    change (String b (base ++ path)%string) with (String b base ++ path)%string.
    rewrite prefix_append.
    replace (String.length (String b base) - 1) with (String.length base)
      by (cbn [String.length]; lia).
    rewrite drop_occurrences_skip.
    apply drop_occurrences_absent; [discriminate | exact Hno].
Qed.

Lemma power_uri_drops_base_url_witness :
  fst (Redfish.get_power_uri (serves system_resource)
         "/Systems/System.Embedded.1" idrac)
  = Ok "/redfish/v1/Chassis/System.Embedded.1/Power"
  /\ Redfish.str_remove "https://idrac/redfish/v1"
       "https://idrac/redfish/v1/Chassis/System.Embedded.1/Power"
     = "/Chassis/System.Embedded.1/Power".
Proof.
  split.
  - vm_compute. reflexivity.
  - refine (proj2 (proj2 (power_uri_drops_base_url
                            "https://idrac/redfish/v1" "sys"
                            "https://idrac/redfish/v1/Chassis/System.Embedded.1/Power"
                            [("Power",
                              Redfish.JDict
                                [("@odata.id",
                                  Redfish.JStr
                                    "https://idrac/redfish/v1/Chassis/System.Embedded.1/Power")])]
                            _ _ _ eq_refl eq_refl))
                   "/Chassis/System.Embedded.1/Power" eq_refl eq_refl);
      discriminate.
Defined.

Lemma first_consumed_skips (before : list Redfish.json) :
  forall rest,
    forallb (Redfish.dict_without "PowerConsumedWatts") before = true ->
    Redfish.first_consumed (before ++ rest) = Redfish.first_consumed rest.
Proof.
  induction before as [| control before IH]; intros rest H; [reflexivity |].
  cbn [forallb] in H. apply andb_prop in H. destruct H as [Hc Hb].
  cbn [app Redfish.first_consumed].
  destruct control as [| | | | | d]; try discriminate Hc.
  cbn in Hc |- *. apply negb_true_iff in Hc. rewrite Hc. cbn.
  apply IH, Hb.
Qed.

Lemma first_average_skips (before : list Redfish.json) :
  forall rest,
    forallb Redfish.without_average before = true ->
    Redfish.first_average (before ++ rest) = Redfish.first_average rest.
Proof.
  induction before as [| control before IH]; intros rest H; [reflexivity |].
  cbn [forallb] in H. apply andb_prop in H. destruct H as [Hc Hb].
  cbn [app Redfish.first_average].
  destruct control as [| | | | | d]; try discriminate Hc.
  cbn in Hc |- *.
  destruct (Redfish.lookup d "PowerMetrics") as [metrics |].
  - destruct metrics as [| | | | | mt]; try discriminate Hc.
    cbn in Hc |- *. apply negb_true_iff in Hc. rewrite Hc. cbn.
    apply IH, Hb.
  - cbn. apply IH, Hb.
Qed.

(** X25: when the power resource is a dict whose [PowerControl] is a list,
    [get_power_consumption] returns the [PowerConsumedWatts] of the first
    control that has the key, the controls before it being dicts without
    it.  The value is returned as it is, [None] included, and whatever
    [AverageConsumedWatts] the controls carry is not looked at. *)
Theorem consumed_watts_come_first
    (d c : list (string * Redfish.json)) (before after : list Redfish.json)
    (v : Redfish.json) :
  Redfish.lookup d "PowerControl"
  = Some (Redfish.JList (before ++ Redfish.JDict c :: after)) ->
  forallb (Redfish.dict_without "PowerConsumedWatts") before = true ->
  Redfish.lookup c "PowerConsumedWatts" = Some v ->
  Redfish.power_consumption_of (Redfish.JDict d) = Ok v.
Proof.
  intros Hd Hb Hc. unfold Redfish.power_consumption_of.
  cbn. unfold Redfish.has_key. rewrite Hd. cbn.
  rewrite first_consumed_skips by exact Hb.
  cbn. unfold Redfish.has_key. rewrite Hc. reflexivity.
Qed.

Lemma consumed_watts_come_first_witness :
  Redfish.power_consumption_of power_resource = Ok (Redfish.JNum 150).
Proof.
  unfold power_resource.
  eapply (consumed_watts_come_first _ _ [] []); reflexivity.
Defined.

(** X26: when no control of the [PowerControl] list has
    [PowerConsumedWatts], [get_power_consumption] returns the
    [AverageConsumedWatts] of the first control whose [PowerMetrics] dict
    has the key; when no control has either, and also when the resource has
    no [PowerControl] at all, it raises the exception "Power consumption
    data not found in Redfish response". *)
Theorem average_watts_are_the_fallback
    (d : list (string * Redfish.json)) :
  (Redfish.lookup d "PowerControl" = None ->
   Redfish.power_consumption_of (Redfish.JDict d)
   = Raise "Power consumption data not found in Redfish response")
  /\ (forall controls,
        Redfish.lookup d "PowerControl" = Some (Redfish.JList controls) ->
        forallb (Redfish.dict_without "PowerConsumedWatts") controls = true ->
        (forall before c mt after v,
            controls = before ++ Redfish.JDict c :: after ->
            forallb Redfish.without_average before = true ->
            Redfish.lookup c "PowerMetrics" = Some (Redfish.JDict mt) ->
            Redfish.lookup mt "AverageConsumedWatts" = Some v ->
            Redfish.power_consumption_of (Redfish.JDict d) = Ok v)
        /\ (forallb Redfish.without_average controls = true ->
            Redfish.power_consumption_of (Redfish.JDict d)
            = Raise "Power consumption data not found in Redfish response")).
Proof.
  split.
  - intros Hd. unfold Redfish.power_consumption_of.
    cbn. unfold Redfish.has_key. rewrite Hd. reflexivity.
  - intros controls Hd Hnone.
    assert (Hfirst : Redfish.first_consumed controls = Ok None).
    { rewrite <- (app_nil_r controls).
      rewrite first_consumed_skips by exact Hnone. reflexivity. }
    assert (Hshape : Redfish.power_consumption_of (Redfish.JDict d)
      = match Redfish.first_average controls with
        | Ok (Some v) => Ok v
        | Ok None =>
            Raise "Power consumption data not found in Redfish response"
        | Raise e => Raise e
        end).
    { unfold Redfish.power_consumption_of.
      cbn. unfold Redfish.has_key. rewrite Hd. cbn. rewrite Hfirst. cbn.
      destruct (Redfish.first_average controls) as [[v |] | e]; reflexivity. }
    split.
    + intros before c mt after v -> Hb Hm Hv. rewrite Hshape.
      rewrite first_average_skips by exact Hb.
      cbn. rewrite Hm. cbn. unfold Redfish.has_key. rewrite Hv. reflexivity.
    + intros Hb. rewrite Hshape. rewrite <- (app_nil_r controls).
      rewrite first_average_skips by exact Hb. reflexivity.
Qed.

Lemma average_watts_are_the_fallback_witness :
  Redfish.power_consumption_of
    (Redfish.JDict
       [("PowerControl",
         Redfish.JList
           [Redfish.JDict [("Name", Redfish.JStr "System Power Control")];
            Redfish.JDict
              [("PowerMetrics",
                Redfish.JDict [("AverageConsumedWatts", Redfish.JNum 140)])]])])
  = Ok (Redfish.JNum 140)
  /\ Redfish.power_consumption_of (Redfish.JDict [])
     = Raise "Power consumption data not found in Redfish response".
Proof.
  split.
  - apply (proj1 (proj2 (average_watts_are_the_fallback
              [("PowerControl",
                Redfish.JList
                  [Redfish.JDict [("Name", Redfish.JStr "System Power Control")];
                   Redfish.JDict
                     [("PowerMetrics",
                       Redfish.JDict
                         [("AverageConsumedWatts", Redfish.JNum 140)])]])])
              [Redfish.JDict [("Name", Redfish.JStr "System Power Control")];
               Redfish.JDict
                 [("PowerMetrics",
                   Redfish.JDict [("AverageConsumedWatts", Redfish.JNum 140)])]]
              eq_refl eq_refl)
             [Redfish.JDict [("Name", Redfish.JStr "System Power Control")]]
             [("PowerMetrics",
               Redfish.JDict [("AverageConsumedWatts", Redfish.JNum 140)])]
             [("AverageConsumedWatts", Redfish.JNum 140)]
             [] (Redfish.JNum 140)); reflexivity.
  - exact (proj1 (average_watts_are_the_fallback []) eq_refl).
Defined.

Lemma supply_info_well_formed (sd : list (string * Redfish.json)) :
  Redfish.well_formed_supply (Redfish.JDict sd) = true ->
  Redfish.supply_info (Redfish.JDict sd) = Ok (supply_info_of_dict sd).
Proof.
  intros H. unfold Redfish.supply_info, supply_info_of_dict, field_or_null.
  cbn in H |- *.
  destruct (Redfish.json_truthy
              match Redfish.lookup sd "MemberId" with
              | Some x => x
              | None => Redfish.JNull
              end); cbn;
    destruct (Redfish.lookup sd "Status") as [[| | | | | st] |];
    try discriminate H; reflexivity.
Qed.

(** X27: when the power resource is a dict whose [PowerSupplies] is a list
    of dicts, each with a [Status] that is absent or a dict,
    [get_power_supplies] does not raise and returns one entry per supply, in
    the order of the list: [id] is [MemberId] when that is present and true
    and [Id] otherwise, a missing field is [None]; without [PowerSupplies]
    the result is the empty list. *)
Theorem supplies_are_listed_in_order
    (d : list (string * Redfish.json))
    (supplies : list (list (string * Redfish.json))) :
  (Redfish.lookup d "PowerSupplies" = None ->
   Redfish.power_supplies_of (Redfish.JDict d) = Ok [])
  /\ (Redfish.lookup d "PowerSupplies"
      = Some (Redfish.JList (map Redfish.JDict supplies)) ->
      forallb Redfish.well_formed_supply (map Redfish.JDict supplies) = true ->
      Redfish.power_supplies_of (Redfish.JDict d)
      = Ok (map supply_info_of_dict supplies)).
Proof.
  split.
  - intros Hd. unfold Redfish.power_supplies_of. cbn. rewrite Hd. reflexivity.
  - intros Hd Hwf. unfold Redfish.power_supplies_of. cbn. rewrite Hd. cbn.
    clear Hd. induction supplies as [| sd supplies IH]; [reflexivity |].
    cbn [map forallb] in Hwf. apply andb_prop in Hwf. destruct Hwf as [Hs Hr].
    cbn [map Redfish.supply_infos].
    rewrite (supply_info_well_formed sd Hs). cbn [Redfish.and_then].
    rewrite (IH Hr). reflexivity.
Qed.

Lemma supplies_are_listed_in_order_witness :
  exists first second,
    Redfish.power_supplies_of power_resource = Ok [first; second]
    /\ Redfish.id first = Redfish.JStr "PS1"
    /\ Redfish.id second = Redfish.JStr "PS2"
    /\ Redfish.state second = Redfish.JNull.
Proof.
  eexists. eexists. split.
  - unfold power_resource.
    apply (proj2 (supplies_are_listed_in_order _
                    [[("MemberId", Redfish.JStr "PS1");
                      ("PowerInputWatts", Redfish.JNum 85);
                      ("PowerOutputWatts", Redfish.JNum 80);
                      ("Status",
                       Redfish.JDict [("State", Redfish.JStr "Enabled")])];
                     [("MemberId", Redfish.JStr "");
                      ("Id", Redfish.JStr "PS2");
                      ("PowerInputWatts", Redfish.JNum 75);
                      ("PowerOutputWatts", Redfish.JNum 70)]]));
      reflexivity.
  - repeat split; reflexivity.
Defined.

Lemma supply_info_returns (s : Redfish.json) :
  Redfish.well_formed_supply s = true ->
  exists info, Redfish.supply_info s = Ok info.
Proof.
  destruct s as [| | | | | sd]; try discriminate.
  intros H. eexists. apply supply_info_well_formed, H.
Qed.

(** X28: one supply whose [Status] is present but not a dict (a [null], for
    one) makes [get_power_supplies] raise [AttributeError], also when every
    supply before it is fine: no supply at all is returned. *)
Theorem bad_status_loses_every_supply
    (d sd : list (string * Redfish.json)) (before after : list Redfish.json)
    (status : Redfish.json) :
  Redfish.lookup d "PowerSupplies"
  = Some (Redfish.JList (before ++ Redfish.JDict sd :: after)) ->
  forallb Redfish.well_formed_supply before = true ->
  Redfish.lookup sd "Status" = Some status ->
  (forall st, status <> Redfish.JDict st) ->
  Redfish.power_supplies_of (Redfish.JDict d) = Raise "AttributeError".
Proof.
  intros Hd Hwf Hs Hbad. unfold Redfish.power_supplies_of.
  cbn. rewrite Hd. cbn. clear Hd.
  induction before as [| s before IH].
  - cbn [app Redfish.supply_infos].
    assert (Hraise : Redfish.supply_info (Redfish.JDict sd)
                     = Raise "AttributeError").
    { unfold Redfish.supply_info. cbn. rewrite Hs.
      destruct (Redfish.json_truthy _); cbn;
        destruct status as [| | | | | st]; try reflexivity;
        exfalso; exact (Hbad st eq_refl). }
    rewrite Hraise. reflexivity.
  - cbn [forallb] in Hwf. apply andb_prop in Hwf. destruct Hwf as [H1 H2].
    cbn [app Redfish.supply_infos].
    destruct (supply_info_returns s H1) as [info ->]. cbn [Redfish.and_then].
    rewrite (IH H2). reflexivity.
Qed.

Lemma bad_status_loses_every_supply_witness :
  Redfish.power_supplies_of
    (Redfish.JDict
       [("PowerSupplies",
         Redfish.JList
           [Redfish.JDict [("MemberId", Redfish.JStr "PS1")];
            Redfish.JDict [("MemberId", Redfish.JStr "PS2");
                           ("Status", Redfish.JNull)]])])
  = Raise "AttributeError".
Proof.
  apply (bad_status_loses_every_supply _
           [("MemberId", Redfish.JStr "PS2"); ("Status", Redfish.JNull)]
           [Redfish.JDict [("MemberId", Redfish.JStr "PS1")]] []
           Redfish.JNull); try reflexivity.
  intros st. discriminate.
Defined.

Lemma fetch_power_data_warm (srv : Redfish.Server) (system_id uri : string)
                            (c : Redfish.RedfishClient) :
  Redfish.lookup (Redfish._power_uri_cache c) system_id = Some uri ->
  Redfish.fetch_power_data srv system_id c = Redfish._request srv uri c.
Proof.
  intros H. unfold Redfish.fetch_power_data, Redfish.get_power_uri.
  rewrite H. reflexivity.
Qed.

(** X29: with the power URI of the system in the cache,
    [get_power_consumption] and [get_power_supplies] each make exactly one
    request, both to the same URL, the base URL followed by the cached URI,
    and leave the cache as it is: a poll that calls both downloads the same
    resource twice. *)
Theorem both_fetches_request_the_power_resource
    (srv : Redfish.Server) (system_id uri : string) (c : Redfish.RedfishClient) :
  Redfish.lookup (Redfish._power_uri_cache c) system_id = Some uri ->
  let after_power := snd (Redfish.get_power_consumption srv system_id c) in
  let after_supplies := snd (Redfish.get_power_supplies srv system_id c) in
  Redfish.requests after_power
  = Redfish.requests c ++ [(Redfish.base_url c ++ uri)%string]
  /\ Redfish.requests after_supplies
     = Redfish.requests c ++ [(Redfish.base_url c ++ uri)%string]
  /\ Redfish._power_uri_cache after_power = Redfish._power_uri_cache c
  /\ Redfish._power_uri_cache after_supplies = Redfish._power_uri_cache c.
Proof.
  intros H. cbv zeta.
  unfold Redfish.get_power_consumption, Redfish.get_power_supplies.
  rewrite (fetch_power_data_warm srv system_id uri c H).
  pose proof (_request_frame srv uri c) as F.
  destruct (Redfish._request srv uri c) as [r c1]. cbn [snd] in *.
  destruct F as (_ & Fc & Fr). auto.
Qed.

Lemma both_fetches_request_the_power_resource_witness :
  Redfish.requests
    (snd (Redfish.get_power_supplies (serves power_resource)
            "/Systems/System.Embedded.1"
            (snd (Redfish.get_power_uri (serves system_resource)
                    "/Systems/System.Embedded.1" idrac))))
  = ["https://idrac/redfish/v1/Systems/System.Embedded.1";
     "https://idrac/redfish/v1/redfish/v1/Chassis/System.Embedded.1/Power"].
Proof.
  apply (proj1 (proj2 (both_fetches_request_the_power_resource
                         (serves power_resource) "/Systems/System.Embedded.1"
                         "/redfish/v1/Chassis/System.Embedded.1/Power"
                         (snd (Redfish.get_power_uri (serves system_resource)
                                 "/Systems/System.Embedded.1" idrac))
                         eq_refl))).
Defined.

Lemma _request_empty_body (srv : Redfish.Server) (path : string)
                          (c : Redfish.RedfishClient) (resp : Redfish.Response) :
  srv (length (Redfish.requests c)) (Redfish.base_url c ++ path)%string
  = Ok resp ->
  (Redfish.status_code resp < 400 \/ 600 <= Redfish.status_code resp)%Z ->
  Redfish.content resp = "" ->
  fst (Redfish._request srv path c) = Ok Redfish.JNull.
Proof.
  intros Hsrv Hstatus Hempty. unfold Redfish._request. rewrite Hsrv.
  assert (Hok : ((400 <=? Redfish.status_code resp)
                 && (Redfish.status_code resp <? 600))%Z = false).
  { destruct (Z.leb_spec 400 (Redfish.status_code resp));
      destruct (Z.ltb_spec (Redfish.status_code resp) 600);
      try reflexivity; lia. }
  rewrite Hok, Hempty. reflexivity.
Qed.

(** X30: a response with a good status and an empty body is read as [None],
    on which the three fetches raise the interpreter's own exceptions, not
    the client's "not found" ones: [get_power_uri] raises [AttributeError]
    when it is the system resource that comes back empty, and, the URI
    being cached, [get_power_consumption] raises [TypeError] and
    [get_power_supplies] raises [AttributeError] when it is the power
    resource. *)
Theorem empty_body_raises
    (srv : Redfish.Server) (system_id : string) (c : Redfish.RedfishClient)
    (resp : Redfish.Response) :
  (Redfish.status_code resp < 400 \/ 600 <= Redfish.status_code resp)%Z ->
  Redfish.content resp = "" ->
  (Redfish.lookup (Redfish._power_uri_cache c) system_id = None ->
   srv (length (Redfish.requests c))
       (Redfish.base_url c ++ system_id)%string = Ok resp ->
   fst (Redfish.get_power_uri srv system_id c) = Raise "AttributeError")
  /\ (forall uri,
        Redfish.lookup (Redfish._power_uri_cache c) system_id = Some uri ->
        srv (length (Redfish.requests c))
            (Redfish.base_url c ++ uri)%string = Ok resp ->
        fst (Redfish.get_power_consumption srv system_id c) = Raise "TypeError"
        /\ fst (Redfish.get_power_supplies srv system_id c)
           = Raise "AttributeError").
Proof.
  intros Hstatus Hempty. split.
  - intros Hcold Hsrv.
    pose proof (_request_empty_body srv system_id c resp Hsrv Hstatus Hempty)
      as R.
    unfold Redfish.get_power_uri. rewrite Hcold.
    destruct (Redfish._request srv system_id c) as [r c1]. cbn [fst] in R.
    subst r. reflexivity.
  - intros uri Hwarm Hsrv.
    pose proof (_request_empty_body srv uri c resp Hsrv Hstatus Hempty) as R.
    unfold Redfish.get_power_consumption, Redfish.get_power_supplies.
    rewrite (fetch_power_data_warm srv system_id uri c Hwarm).
    destruct (Redfish._request srv uri c) as [r c1]. cbn [fst] in R.
    subst r. split; reflexivity.
Qed.

Lemma empty_body_raises_witness :
  fst (Redfish.get_power_uri serves_nothing "/Systems/System.Embedded.1" idrac)
  = Raise "AttributeError".
Proof.
  apply (proj1 (empty_body_raises serves_nothing "/Systems/System.Embedded.1"
                  idrac
                  {| Redfish.status_code := 200; Redfish.content := "";
                     Redfish.json_body := Raise "JSONDecodeError" |}
                  ltac:(left; reflexivity) eq_refl));
    reflexivity.
Defined.
